(** * geminiService: provider adapters and model discovery

    A shallow embedding of [src/services/geminiService.ts] and the
    properties of its string helpers, of its provider adapters and of
    the model-discovery cascade.

    JavaScript strings are sequences of UTF-16 code units; outbound
    calls ([fetch], the Gemini SDK) are events appended to a log and
    answered by a deterministic world. *)

From Stdlib Require Import List Bool Arith ZArith NArith Lia.
From Stdlib Require Import Ascii String DecimalString.
From Stdlib Require Import Sorted Permutation.
Import ListNotations.

Set Implicit Arguments.
Set Warnings "-register-all".
Set Warnings "-notation-overridden".
#[local] Set Warnings "-automation".


(* ================================================================= *)
(** ** Strings *)

Module JsString.

(** A code unit is a 16-bit number; every function below is total on [N]. *)
Definition code_unit := N.
Definition jsstring := list code_unit.

Definition str_eqb (a b : jsstring) : bool :=
  if list_eq_dec N.eq_dec a b then true else false.

(** Literals are written as Rocq strings (UTF-8 bytes) and decoded to
    UTF-16 code units. *)
Definition byte_of (c : ascii) : N := N_of_ascii c.

Definition cont (b : N) : N := N.land b 63.

Definition utf16_of_code_point (cp : N) : jsstring :=
  if (cp <? 65536)%N then [cp]
  else let v := (cp - 65536)%N in
       [(55296 + N.shiftr v 10)%N; (56320 + N.land v 1023)%N].

Fixpoint decode_utf8 (bs : list N) (fuel : nat) : jsstring :=
  match fuel with
  | O => []
  | S fuel =>
    match bs with
    | [] => []
    | b0 :: r0 =>
      if (b0 <? 128)%N then b0 :: decode_utf8 r0 fuel
      else if (b0 <? 224)%N then
        match r0 with
        | b1 :: r1 =>
          utf16_of_code_point (N.shiftl (N.land b0 31) 6 + cont b1)
            ++ decode_utf8 r1 fuel
        | _ => []
        end
      else if (b0 <? 240)%N then
        match r0 with
        | b1 :: b2 :: r2 =>
          utf16_of_code_point
            (N.shiftl (N.land b0 15) 12 + N.shiftl (cont b1) 6 + cont b2)
            ++ decode_utf8 r2 fuel
        | _ => []
        end
      else
        match r0 with
        | b1 :: b2 :: b3 :: r3 =>
          utf16_of_code_point
            (N.shiftl (N.land b0 7) 18 + N.shiftl (cont b1) 12
             + N.shiftl (cont b2) 6 + cont b3)
            ++ decode_utf8 r3 fuel
        | _ => []
        end
    end
  end.

Definition js (s : string) : jsstring :=
  let bs := List.map byte_of (list_ascii_of_string s) in
  decode_utf8 bs (List.length bs).

(** [s.startsWith(p)], also the test of a regular expression [/^p/]. *)
Fixpoint starts_with (p s : jsstring) : bool :=
  match p, s with
  | [], _ => true
  | _ :: _, [] => false
  | a :: p', b :: s' => (a =? b)%N && starts_with p' s'
  end.

(** [s.endsWith(p)]. *)
Definition ends_with (p s : jsstring) : bool :=
  starts_with (rev p) (rev s).

(** [s.includes(p)]. *)
Fixpoint includes (p s : jsstring) : bool :=
  starts_with p s ||
  match s with
  | [] => false
  | _ :: s' => includes p s'
  end.

(** ECMAScript WhiteSpace and LineTerminator code points, the set
    removed by [String.prototype.trim]. *)
Definition is_space (c : code_unit) : bool :=
  ((9 <=? c) && (c <=? 13) || (c =? 32) || (c =? 160) || (c =? 5760)
   || (8192 <=? c) && (c <=? 8202) || (c =? 8232) || (c =? 8233)
   || (c =? 8239) || (c =? 8287) || (c =? 12288) || (c =? 65279))%N.

Fixpoint trim_start (s : jsstring) : jsstring :=
  match s with
  | c :: s' => if is_space c then trim_start s' else s
  | [] => []
  end.

Definition trim_end (s : jsstring) : jsstring := rev (trim_start (rev s)).

(** [s.trim()]. *)
Definition trim (s : jsstring) : jsstring := trim_end (trim_start s).

Definition slash : code_unit := 47%N.

(** [s.replace(/\/$/, '')]: without the [m] flag [$] matches at the end
    of the input only, so at most the last code unit goes. *)
Definition strip_trailing_slash (s : jsstring) : jsstring :=
  match rev s with
  | c :: r => if (c =? slash)%N then rev r else s
  | [] => s
  end.

(** [s.replace(/p/g, '')] for a pattern [p] of literal characters:
    matches are found left to right and do not overlap.  [skip] counts
    the code units of the current match still to drop. *)
Fixpoint remove_all_from (p : jsstring) (skip : nat) (s : jsstring) : jsstring :=
  match s with
  | [] => []
  | c :: s' =>
    match skip with
    | S k => remove_all_from p k s'
    | O =>
      match p with
      | [] => c :: remove_all_from p 0 s'
      | _ :: _ =>
        if starts_with p s then remove_all_from p (List.length p - 1) s'
        else c :: remove_all_from p 0 s'
      end
    end
  end.

Definition remove_all (p s : jsstring) : jsstring := remove_all_from p 0 s.

(** ASCII case folding: the canonicalisation a regular expression with
    the [i] flag (and no [u] flag) applies to the letters A-Z; a code
    unit above 127 never canonicalises to an ASCII letter. *)
Definition ascii_upper (c : code_unit) : code_unit :=
  if ((97 <=? c) && (c <=? 122))%N then (c - 32)%N else c.

Definition includes_ci (p s : jsstring) : bool :=
  includes (List.map ascii_upper p) (List.map ascii_upper s).

(** Decimal digits of a natural number, as [String(n)] prints an
    integer. *)
Definition decimal (n : nat) : jsstring :=
  js (NilEmpty.string_of_uint (Nat.to_uint n)).

Definition hex_digit (d : N) : code_unit :=
  if (d <? 10)%N then (48 + d)%N else (55 + d)%N.

Definition percent_byte (b : N) : jsstring :=
  [37%N; hex_digit (N.shiftr b 4); hex_digit (N.land b 15)].

Definition utf8_of_code_point (cp : N) : list N :=
  if (cp <? 128)%N then [cp]
  else if (cp <? 2048)%N then
    [(192 + N.shiftr cp 6)%N; (128 + N.land cp 63)%N]
  else if (cp <? 65536)%N then
    [(224 + N.shiftr cp 12)%N; (128 + N.land (N.shiftr cp 6) 63)%N;
     (128 + N.land cp 63)%N]
  else
    [(240 + N.shiftr cp 18)%N; (128 + N.land (N.shiftr cp 12) 63)%N;
     (128 + N.land (N.shiftr cp 6) 63)%N; (128 + N.land cp 63)%N].

(** The characters [encodeURIComponent] leaves alone:
    A-Z a-z 0-9 - _ . ! ~ * ' ( ) *)
Definition uri_unreserved (c : code_unit) : bool :=
  ((65 <=? c) && (c <=? 90) || (97 <=? c) && (c <=? 122)
   || (48 <=? c) && (c <=? 57)
   || (c =? 45) || (c =? 95) || (c =? 46) || (c =? 33) || (c =? 126)
   || (c =? 42) || (c =? 39) || (c =? 40) || (c =? 41))%N.

Definition is_lead (c : code_unit) : bool := ((55296 <=? c) && (c <=? 56319))%N.
Definition is_trail (c : code_unit) : bool := ((56320 <=? c) && (c <=? 57343))%N.

(** [encodeURIComponent(s)]; [None] is the URIError raised on a lone
    surrogate.  [pending] holds a lead surrogate waiting for its trail. *)
Fixpoint encode_from (pending : option code_unit) (s : jsstring)
  : option jsstring :=
  match pending with
  | Some hi =>
    match s with
    | lo :: s' =>
      if is_trail lo then
        let cp := (65536 + N.shiftl (hi - 55296) 10 + (lo - 56320))%N in
        option_map (app (List.concat (List.map percent_byte (utf8_of_code_point cp))))
                   (encode_from None s')
      else None
    | [] => None
    end
  | None =>
    match s with
    | [] => Some []
    | c :: s' =>
      if uri_unreserved c then option_map (cons c) (encode_from None s')
      else if is_lead c then encode_from (Some c) s'
      else if is_trail c then None
      else option_map (app (List.concat (List.map percent_byte (utf8_of_code_point c))))
                      (encode_from None s')
    end
  end.

Definition encodeURIComponent (s : jsstring) : option jsstring :=
  encode_from None s.

End JsString.
Import JsString.

(* ================================================================= *)
(** ** The host: what the JavaScript engine supplies *)

(** Errors the engine raises by itself: reading a property of [null]
    or [undefined], calling a value that is not a function, converting
    an object without a usable [toString] to a primitive (all three are
    TypeErrors), and the URIError of [encodeURIComponent]. *)
Inductive host_error :=
| ReadOfNullish
| NotAFunction
| NotPrimitive
| MalformedURI.

(** The built-ins whose definition lies outside this module: IEEE
    numbers (only their truthiness and their decimal form are
    observed), the collation behind [localeCompare], Unicode lower
    casing and the wording of engine errors. *)
Class Engine := {
  number : Type;
  number_truthy : number -> bool;
  number_to_string : number -> jsstring;
  number_of_decimal : Z -> Z -> number;
  localeCompare : jsstring -> jsstring -> Z;
  toLowerCase : jsstring -> jsstring;
  host_error_message : host_error -> jsstring
}.

(** An Error object: only its [name] and [message] are read. *)
Record exn := { exn_name : jsstring; exn_message : jsstring }.

Definition Error (msg : jsstring) : exn :=
  {| exn_name := js "Error"; exn_message := msg |}.

(** [String(e)] for an Error object ([Error.prototype.toString]). *)
Definition error_to_string (e : exn) : jsstring :=
  match exn_name e, exn_message e with
  | [], m => m
  | n, [] => n
  | n, m => n ++ js ": " ++ m
  end.

Section Host.
Context {E : Engine}.

Definition raise (h : host_error) : exn :=
  match h with
  | MalformedURI =>
    {| exn_name := js "URIError"; exn_message := host_error_message h |}
  | _ =>
    {| exn_name := js "TypeError"; exn_message := host_error_message h |}
  end.

(* ================================================================= *)
(** ** Values parsed from JSON *)

(** The result of [response.json()].  An object is the list of its own
    properties; a key is looked up at its first binding.  [undefined]
    is [None] in [option json]. *)
Inductive json :=
| JNull
| JBool (b : bool)
| JNum (n : number)
| JStr (s : jsstring)
| JArr (items : list json)
| JObj (fields : list (jsstring * json)).

Fixpoint lookup (k : jsstring) (fields : list (jsstring * json)) : option json :=
  match fields with
  | [] => None
  | (k', v) :: rest => if str_eqb k k' then Some v else lookup k rest
  end.

(** ToBoolean. *)
Definition truthy (v : json) : bool :=
  match v with
  | JNull => false
  | JBool b => b
  | JNum n => number_truthy n
  | JStr s => negb (str_eqb s [])
  | JArr _ | JObj _ => true
  end.

Definition truthy_opt (v : option json) : bool :=
  match v with
  | Some v => truthy v
  | None => false
  end.

(** [a || b] where [b] is defined. *)
Definition or_else (a : option json) (b : json) : json :=
  match a with
  | Some v => if truthy v then v else b
  | None => b
  end.

(** Property read [v.k] on a value that is neither [null] nor
    [undefined].  The keys this module reads ([data], [id], [models],
    [name], [error], [message], [nextPageToken], [choices], [content],
    [b64_json], [url]) name no member of a built-in prototype, so a
    primitive or an array has none of them. *)
Definition prop (v : json) (k : jsstring) : option json :=
  match v with
  | JObj fields => lookup k fields
  | _ => None
  end.

(** [v?.k] *)
Definition get_opt (v : option json) (k : jsstring) : option json :=
  match v with
  | None | Some JNull => None
  | Some v => prop v k
  end.

(** [v.k] *)
Definition get (v : option json) (k : jsstring) : exn + option json :=
  match v with
  | None | Some JNull => inl (raise ReadOfNullish)
  | Some v => inr (prop v k)
  end.

(** Element read [v[0]] on a value that is neither [null] nor [undefined]. *)
Definition item0 (v : json) : option json :=
  match v with
  | JArr items => hd_error items
  | JStr (c :: _) => Some (JStr [c])
  | JObj fields => lookup (js "0") fields
  | _ => None
  end.

(** [v?.[0]] *)
Definition first_opt (v : option json) : option json :=
  match v with
  | None | Some JNull => None
  | Some v => item0 v
  end.

(** [v[0]] *)
Definition first (v : option json) : exn + option json :=
  match v with
  | None | Some JNull => inl (raise ReadOfNullish)
  | Some v => inr (item0 v)
  end.

Fixpoint join (sep : jsstring) (parts : list jsstring) : jsstring :=
  match parts with
  | [] => []
  | [p] => p
  | p :: rest => p ++ sep ++ join sep rest
  end.

Fixpoint sequence {A : Type} (l : list (option A)) : option (list A) :=
  match l with
  | [] => Some []
  | Some a :: rest => option_map (cons a) (sequence rest)
  | None :: _ => None
  end.

(** ToString.  An array joins its elements with a comma, [null]
    elements printing as the empty string; an object prints as
    [[object Object]] unless it carries an own [toString] property,
    which coming from JSON is not callable: the conversion then fails
    with a TypeError ([None]). *)
Fixpoint to_string (v : json) : option jsstring :=
  match v with
  | JNull => Some (js "null")
  | JBool true => Some (js "true")
  | JBool false => Some (js "false")
  | JNum n => Some (number_to_string n)
  | JStr s => Some s
  | JArr items =>
    option_map (join (js ","))
      (sequence (List.map (fun x => match x with
                                    | JNull => Some []
                                    | _ => to_string x
                                    end) items))
  | JObj fields =>
    match lookup (js "toString") fields with
    | Some _ => None
    | None => Some (js "[object Object]")
    end
  end.

(** A template literal hole or [String(v)] or [new Error(v)]. *)
Definition stringify (v : json) : exn + jsstring :=
  match to_string v with
  | Some s => inr s
  | None => inl (raise NotPrimitive)
  end.

(** [`${v}`] for an optional string. *)
Definition text_of (v : option jsstring) : jsstring :=
  match v with
  | Some s => s
  | None => js "undefined"
  end.

(** The value of [v] when [if (v)] takes its branch. *)
Definition truthy_value (v : option json) : option json :=
  match v with
  | Some x => if truthy x then Some x else None
  | None => None
  end.

(** [l.filter(Boolean)] *)
Fixpoint filter_truthy (l : list (option json)) : list json :=
  match l with
  | [] => []
  | v :: rest =>
    match truthy_value v with
    | Some x => x :: filter_truthy rest
    | None => filter_truthy rest
    end
  end.

(** [v || d] for an optional string. *)
Definition str_or (v : option jsstring) (d : jsstring) : jsstring :=
  match v with
  | Some ((_ :: _) as s) => s
  | _ => d
  end.

(* ================================================================= *)
(** ** Configuration, requests and responses *)

Inductive Provider := Gemini | OpenAI.

Record AIConfig := {
  provider : Provider;
  apiKey : option jsstring;
  baseUrl : option jsstring;
  chatModel : option jsstring;
  imageModel : option jsstring;
  temperature : option number
}.

Record Message := { msg_role : jsstring; msg_content : jsstring }.

(** The object handed to [JSON.stringify] as the request body. *)
Inductive RequestBody :=
| ChatBody (model : jsstring) (messages : list Message)
           (temperature : option number)
| ImageBody (model : jsstring) (prompt : jsstring) (n : nat)
            (size : jsstring) (response_format : jsstring).

Record Request := {
  url : jsstring;
  method : jsstring;
  headers : list (jsstring * jsstring);
  body : option RequestBody
}.

(** A fetch Response.  [json_body] is what [response.json()] settles
    to: a rejection or the parsed value. *)
Record Response := {
  status : nat;
  statusText : jsstring;
  json_body : exn + json
}.

Definition ok (r : Response) : bool := (200 <=? status r) && (status r <=? 299).

(** The Gemini SDK, by the fields this module writes and reads. *)
Record ClientOptions := {
  opt_apiKey : option jsstring;
  opt_baseUrl : option jsstring
}.

Inductive Contents :=
| TextContents (text : jsstring)
| PartsContents (texts : list jsstring).

Record GenerateContentParams := {
  gc_model : jsstring;
  gc_contents : Contents;
  gc_systemInstruction : option jsstring;
  gc_temperature : option number;
  gc_aspectRatio : option jsstring
}.

Record Blob := { data : option jsstring; mimeType : option jsstring }.
Record Part := { inlineData : option Blob }.
Record Content := { parts : option (list Part) }.
Record Candidate := { content : option Content }.

Record GenerateContentResponse := {
  text : option jsstring;
  candidates : option (list Candidate)
}.

Record GenerateImagesParams := {
  gi_model : jsstring;
  gi_prompt : jsstring;
  gi_numberOfImages : nat;
  gi_aspectRatio : jsstring;
  gi_outputMimeType : jsstring
}.

Record Image := { imageBytes : option jsstring }.
Record GeneratedImage := { image : option Image }.
Record GenerateImagesResponse := {
  generatedImages : option (list GeneratedImage)
}.

(* ================================================================= *)
(** ** Effects *)

(** What the module does to the outside, in order. *)
Inductive event :=
| EvFetch (r : Request)
| EvGenerateContent (o : ClientOptions) (p : GenerateContentParams)
| EvGenerateImages (o : ClientOptions) (p : GenerateImagesParams)
| EvConsoleError (label : jsstring) (e : exn).

Definition log := list event.

(** The outside answers each call as a function of everything done
    before and of the call itself; a rejected promise is [inl]. *)
Record World := {
  fetch_reply : log -> Request -> exn + Response;
  generateContent_reply :
    log -> ClientOptions -> GenerateContentParams -> exn + GenerateContentResponse;
  generateImages_reply :
    log -> ClientOptions -> GenerateImagesParams -> exn + GenerateImagesResponse
}.

(** A computation ends with a value, with a thrown error, or (only for
    the bounded loop below, never from its entry point) out of fuel. *)
Inductive outcome (A : Type) :=
| Ok (a : A)
| Throw (e : exn)
| OutOfFuel.
Arguments Throw {A} e.
Arguments OutOfFuel {A}.

Definition M (A : Type) := log -> outcome A * log.

Definition ret {A} (a : A) : M A := fun s => (Ok a, s).

Definition throw {A} (e : exn) : M A := fun s => (Throw e, s).

Definition bind {A B} (m : M A) (f : A -> M B) : M B :=
  fun s =>
    match m s with
    | (Ok a, s') => f a s'
    | (Throw e, s') => (Throw e, s')
    | (OutOfFuel, s') => (OutOfFuel, s')
    end.

(** [try { m } catch (e) { h e }] *)
Definition try_catch {A} (m : M A) (h : exn -> M A) : M A :=
  fun s =>
    match m s with
    | (Throw e, s') => h e s'
    | r => r
    end.

(** [try { m } catch (e) { ... }] with the outcome handed to the code
    that follows the block. *)
Definition attempt_try {A} (m : M A) : M (exn + A) :=
  fun s =>
    match m s with
    | (Ok a, s') => (Ok (inr a), s')
    | (Throw e, s') => (Ok (inl e), s')
    | (OutOfFuel, s') => (OutOfFuel, s')
    end.

(** A step that may throw and touches nothing outside. *)
Definition lift {A} (r : exn + A) : M A :=
  match r with
  | inl e => throw e
  | inr a => ret a
  end.

Definition emit (ev : event) : M unit := fun s => (Ok tt, s ++ [ev]).

End Host.

Arguments json {E}.
Arguments AIConfig {E}.
Arguments RequestBody {E}.
Arguments Request {E}.
Arguments Response {E}.
Arguments GenerateContentParams {E}.
Arguments event {E}.
Arguments log {E}.
Arguments World {E}.
Arguments M {E} A.
Arguments Ok {A} a.
Arguments Throw {A} e.
Arguments OutOfFuel {A}.

Declare Scope js_scope.
Delimit Scope js_scope with M.
Notation "x <- c1 ;; c2" := (bind c1 (fun x => c2))
  (at level 61, c1 at next level, right associativity) : js_scope.
Notation "c1 ;;; c2" := (bind c1 (fun _ => c2))
  (at level 61, right associativity) : js_scope.
Open Scope js_scope.

(* ================================================================= *)
(** ** The service *)

Section Service.
Context {E : Engine} (W : World).

(** [await fetch(url, init)] *)
Definition fetch (r : Request) : M Response :=
  fun s => (match fetch_reply W s r with
            | inl e => Throw e
            | inr resp => Ok resp
            end, s ++ [EvFetch r]).

(** [await ai.models.generateContent(params)] *)
Definition sdk_generateContent (ai : ClientOptions) (p : GenerateContentParams)
  : M GenerateContentResponse :=
  fun s => (match generateContent_reply W s ai p with
            | inl e => Throw e
            | inr resp => Ok resp
            end, s ++ [EvGenerateContent ai p]).

(** [await ai.models.generateImages(params)] *)
Definition sdk_generateImages (ai : ClientOptions) (p : GenerateImagesParams)
  : M GenerateImagesResponse :=
  fun s => (match generateImages_reply W s ai p with
            | inl e => Throw e
            | inr resp => Ok resp
            end, s ++ [EvGenerateImages ai p]).

(** [console.error(label, e)] *)
Definition console_error (label : jsstring) (e : exn) : M unit :=
  emit (EvConsoleError label e).

(** [await response.json()] *)
Definition response_json (r : Response) : M json := lift (json_body r).

(** Lines 5-11. *)
Definition createGeminiClient (config : AIConfig) : ClientOptions :=
  {| opt_apiKey := apiKey config;
     opt_baseUrl :=
       match baseUrl config with
       | Some ((_ :: _) as u) => if str_eqb (trim u) [] then None else Some u
       | _ => None
       end |}.

Definition openai_default_base : jsstring :=
  Eval vm_compute in js "https://api.openai.com/v1".

(** Lines 15, 46 and 118, the same expression three times:
    [config.baseUrl ? config.baseUrl.replace(/\/$/, '') : 'https://api.openai.com/v1'] *)
Definition normalizeBaseUrl (baseUrl : option jsstring) : jsstring :=
  match baseUrl with
  | Some ((_ :: _) as u) => strip_trailing_slash u
  | _ => openai_default_base
  end.

(** Line 142:
    [config.baseUrl && config.baseUrl.trim() !== '' ? config.baseUrl.trim().replace(/\/$/, '') : ''] *)
Definition customBase (baseUrl : option jsstring) : jsstring :=
  match baseUrl with
  | Some ((_ :: _) as u) =>
    if str_eqb (trim u) [] then [] else strip_trailing_slash (trim u)
  | _ => []
  end.

Definition bearer (config : AIConfig) : jsstring * jsstring :=
  (js "Authorization", js "Bearer " ++ text_of (apiKey config)).

Definition content_type_json : jsstring * jsstring :=
  (js "Content-Type", js "application/json").

(** What [response.json().catch(() => ({ error: { message: response.statusText } }))]
    settles to (lines 37 and 70). *)
Definition error_body (response : Response) : json :=
  match json_body response with
  | inr v => v
  | inl _ => JObj [(js "error", JObj [(js "message", JStr (statusText response))])]
  end.

(** Lines 36-39 and 69-72: [throw new Error(error.error?.message || fallback)]. *)
Definition throw_openai_failure {A} (response : Response) (fallback : jsstring)
  : M A :=
  let error := error_body response in
  inner <- lift (get (Some error) (js "error")) ;;
  msg <- lift (stringify (or_else (get_opt inner (js "message")) (JStr fallback))) ;;
  throw (Error msg).

(** Lines 14-43. *)
Definition callOpenAIChat (config : AIConfig) (messages : list Message)
           (systemInstruction : option jsstring) : M json :=
  let baseUrl := normalizeBaseUrl (baseUrl config) in
  let finalMessages :=
    match systemInstruction with
    | Some ((_ :: _) as si) =>
      {| msg_role := js "system"; msg_content := si |} :: messages
    | _ => messages
    end in
  response <- fetch {| url := baseUrl ++ js "/chat/completions";
                       method := js "POST";
                       headers := [content_type_json; bearer config];
                       body := Some (ChatBody
                                       (str_or (chatModel config) (js "gpt-3.5-turbo"))
                                       finalMessages
                                       (temperature config)) |} ;;
  if negb (ok response) then
    throw_openai_failure response
      (js "OpenAI Request Failed: " ++ decimal (status response))
  else
    data <- response_json response ;;
    choices <- lift (get (Some data) (js "choices")) ;;
    ret (or_else (get_opt (get_opt (first_opt choices) (js "message")) (js "content"))
                 (JStr (js "AI returned empty response"))).

(** Lines 48-52: the pixel size sent to the provider. *)
Definition sizeStr (size : jsstring) : jsstring :=
  if includes (js "1024") size then js "1024x1024"
  else if str_eqb size (js "16:9") then js "1792x1024"
  else js "1024x1024".

(** Lines 45-80. *)
Definition callOpenAIImage (config : AIConfig) (prompt size : jsstring) : M json :=
  let baseUrl := normalizeBaseUrl (baseUrl config) in
  response <- fetch {| url := baseUrl ++ js "/images/generations";
                       method := js "POST";
                       headers := [content_type_json; bearer config];
                       body := Some (ImageBody
                                       (str_or (imageModel config) (js "dall-e-3"))
                                       prompt 1 (sizeStr size) (js "b64_json")) |} ;;
  if negb (ok response) then
    throw_openai_failure response
      (js "OpenAI Image Request Failed: " ++ decimal (status response))
  else
    data <- response_json response ;;
    items <- lift (get (Some data) (js "data")) ;;
    entry <- lift (first items) ;;
    match truthy_value (get_opt entry (js "b64_json")) with
    | Some b64 =>
      payload <- lift (stringify b64) ;;
      ret (JStr (js "data:image/png;base64," ++ payload))
    | None =>
      ret (or_else (get_opt entry (js "url")) (JStr []))
    end.

(** Lines 82-88. *)
Definition safeParseJson (response : Response) : json :=
  match json_body response with
  | inr v => v
  | inl _ => JNull
  end.

(** [Array.from(new Set(l))]: the first occurrence of each string, in
    order of insertion. *)
Fixpoint set_from (seen : list jsstring) (l : list jsstring) : list jsstring :=
  match l with
  | [] => []
  | x :: rest =>
    if existsb (str_eqb x) seen then set_from seen rest
    else x :: set_from (x :: seen) rest
  end.

(** [l.sort((a, b) => a.localeCompare(b))]: the sort is stable and the
    comparator consistent, so the result is the one of inserting each
    element before the first one it does not follow. *)
Fixpoint insert_sorted (x : jsstring) (l : list jsstring) : list jsstring :=
  match l with
  | [] => [x]
  | y :: rest =>
    if (localeCompare x y <=? 0)%Z then x :: l else y :: insert_sorted x rest
  end.

Fixpoint sort (l : list jsstring) : list jsstring :=
  match l with
  | [] => []
  | x :: rest => insert_sorted x (sort rest)
  end.

Definition nonempty (s : jsstring) : bool := negb (str_eqb s []).

(** Lines 90-92. *)
Definition dedupeAndSort (models : list jsstring) : list jsstring :=
  sort (set_from [] (filter nonempty (List.map trim models))).

Definition models_prefix : jsstring := Eval vm_compute in js "models/".

(** Line 94: [name.replace(/^models\//, '')]. *)
Definition stripGeminiModelPrefix (name : jsstring) : jsstring :=
  if starts_with models_prefix name then skipn (List.length models_prefix) name
  else name.

(** One [k=v] pair of line 99; the conversions run left to right. *)
Definition encode_pair (k : jsstring) (v : json) : exn + jsstring :=
  match encodeURIComponent k with
  | None => inl (raise MalformedURI)
  | Some ek =>
    match stringify v with
    | inl e => inl e
    | inr sv =>
      match encodeURIComponent sv with
      | None => inl (raise MalformedURI)
      | Some ev => inr (ek ++ js "=" ++ ev)
      end
    end
  end.

Fixpoint encode_pairs (entries : list (jsstring * json)) : exn + list jsstring :=
  match entries with
  | [] => inr []
  | (k, v) :: rest =>
    match encode_pair k v with
    | inl e => inl e
    | inr p =>
      match encode_pairs rest with
      | inl e => inl e
      | inr ps => inr (p :: ps)
      end
    end
  end.

(** The filter of line 98: [v !== undefined && v !== '']. *)
Fixpoint defined_params (params : list (jsstring * option json))
  : list (jsstring * json) :=
  match params with
  | [] => []
  | (_, None) :: rest => defined_params rest
  | (_, Some (JStr [])) :: rest => defined_params rest
  | (k, Some v) :: rest => (k, v) :: defined_params rest
  end.

(** Lines 96-103. *)
Definition withSearchParams (url : jsstring) (params : list (jsstring * option json))
  : exn + jsstring :=
  match encode_pairs (defined_params params) with
  | inl e => inl e
  | inr pairs =>
    let query := join (js "&") pairs in
    match query with
    | [] => inr url
    | _ => inr (url ++ (if includes (js "?") url then js "&" else js "?") ++ query)
    end
  end.

Definition cors_hint : jsstring :=
  Eval vm_compute in js "（可能是浏览器跨域 CORS 或网络问题）".

(** Lines 105-111. *)
Definition formatNetworkError (e : exn) : jsstring :=
  let msg := match exn_message e with
             | [] => error_to_string e
             | m => m
             end in
  if includes_ci (js "Failed to fetch") msg then msg ++ cors_hint else msg.

Definition list_failed : jsstring := Eval vm_compute in js "模型列表获取失败: ".
Definition openai_list_failed : jsstring :=
  Eval vm_compute in js "OpenAI 模型列表获取失败: ".
Definition gemini_list_failed : jsstring :=
  Eval vm_compute in js "Gemini 模型列表获取失败: ".

(** Lines 128-129, 171-172 and 208-209:
    [errorBody?.error?.message || response.statusText || `HTTP ${response.status}`] *)
Definition failure_detail (response : Response) : json :=
  let errorBody := safeParseJson response in
  or_else (get_opt (get_opt (Some errorBody) (js "error")) (js "message"))
          (or_else (Some (JStr (statusText response)))
                   (JStr (js "HTTP " ++ decimal (status response)))).

(** Lines 127-131, 170-174 and 207-211. *)
Definition throw_list_failure {A} (response : Response) : M A :=
  message <- lift (stringify (failure_detail response)) ;;
  throw (Error (list_failed ++ message)).

(** [arr.map(f)] on a value that may not be an array. *)
Definition as_array (v : json) : exn + list json :=
  match v with
  | JArr items => inr items
  | _ => inl (raise NotAFunction)
  end.

(** A string method called on a value that may not be a string. *)
Definition as_string (v : json) : exn + jsstring :=
  match v with
  | JStr s => inr s
  | _ => inl (raise NotAFunction)
  end.

(** [l.map(f)] for a callback that may throw: the first failure wins. *)
Fixpoint map_result {A B} (f : A -> exn + B) (l : list A) : exn + list B :=
  match l with
  | [] => inr []
  | x :: rest =>
    match f x with
    | inl e => inl e
    | inr y =>
      match map_result f rest with
      | inl e => inl e
      | inr ys => inr (y :: ys)
      end
    end
  end.

Definition bind_result {A B} (r : exn + A) (f : A -> exn + B) : exn + B :=
  match r with
  | inl e => inl e
  | inr a => f a
  end.

(** Line 134: [(data?.data || []).map((m: any) => m?.id).filter(Boolean)] *)
Definition openai_ids (data : json) : exn + list json :=
  bind_result (as_array (or_else (get_opt (Some data) (js "data")) (JArr [])))
    (fun items =>
       inr (filter_truthy (List.map (fun m => get_opt (Some m) (js "id")) items))).

(** Lines 177-179:
    [(data?.models || []).map((m: any) => stripGeminiModelPrefix(m?.name || '')).filter(Boolean)] *)
Definition page_models (data : json) : exn + list jsstring :=
  bind_result (as_array (or_else (get_opt (Some data) (js "models")) (JArr [])))
    (fun items =>
       bind_result
         (map_result
            (fun m =>
               bind_result (as_string (or_else (get_opt (Some m) (js "name")) (JStr [])))
                           (fun name => inr (stripGeminiModelPrefix name)))
            items)
         (fun names => inr (filter nonempty names))).

(** The two ways of presenting the key: lines 167-168 and 199-205. *)
Inductive AuthMode := QueryKey | HeaderKey.

Definition page_request (config : AIConfig) (auth : AuthMode)
           (endpoint : jsstring) (pageToken : option json) : exn + Request :=
  match auth with
  | QueryKey =>
    bind_result
      (withSearchParams endpoint
         [(js "key", option_map JStr (apiKey config)); (js "pageToken", pageToken)])
      (fun u => inr {| url := u; method := js "GET"; headers := []; body := None |})
  | HeaderKey =>
    bind_result
      (withSearchParams endpoint [(js "pageToken", pageToken)])
      (fun u => inr {| url := u; method := js "GET";
                       headers := [(js "x-goog-api-key", text_of (apiKey config))];
                       body := None |})
  end.

(** The do-while loops of lines 163-182 and 195-219, entered with the
    loop variables [models], [pageToken] and [guard].  One unit of
    [fuel] is spent per iteration. *)
Fixpoint paginate (config : AIConfig) (auth : AuthMode) (endpoint : jsstring)
         (fuel : nat) (models : list jsstring) (pageToken : option json)
         (guard : nat) : M (list jsstring) :=
  match fuel with
  | O => fun s => (OutOfFuel, s)
  | S fuel =>
    let guard := S guard in
    if (20 <? guard) || (500 <? List.length models) then ret models
    else
      request <- lift (page_request config auth endpoint pageToken) ;;
      response <- fetch request ;;
      if negb (ok response) then throw_list_failure response
      else
        data <- response_json response ;;
        pageModels <- lift (page_models data) ;;
        let models := models ++ pageModels in
        let pageToken := get_opt (Some data) (js "nextPageToken") in
        if truthy_opt pageToken
        then paginate config auth endpoint fuel models pageToken guard
        else ret models
  end.

(** The body of one [try] block: lines 159-184 and 191-221. *)
Definition attempt (config : AIConfig) (auth : AuthMode) (endpoint : jsstring)
  : M (list jsstring) :=
  models <- paginate config auth endpoint 21 [] None 0 ;;
  ret (dedupeAndSort models).

Definition v1beta_segment (base : jsstring) : bool :=
  includes (js "/v1beta/") base || ends_with (js "/v1beta") base.

Definition default_endpoint : jsstring :=
  Eval vm_compute in js "https://generativelanguage.googleapis.com/v1beta/models".

(** Lines 142-153. *)
Definition endpoints (config : AIConfig) : list jsstring :=
  match customBase (baseUrl config) with
  | [] => [default_endpoint]
  | base =>
    (base ++ js "/models")
      :: (if v1beta_segment base then [] else [base ++ js "/v1beta/models"])
  end.

Definition wrap_gemini (e : exn) : exn :=
  Error (gemini_list_failed ++ formatNetworkError e).

(** The [for] loop of lines 156-225 with its variable [lastError]. *)
Fixpoint discover (config : AIConfig) (endpoints : list jsstring)
         (lastError : option exn) : M (list jsstring) :=
  match endpoints with
  | [] =>
    throw (match lastError with
           | Some e => e
           | None => Error (js "模型列表获取失败：未知错误")
           end)
  | endpoint :: rest =>
    byQuery <- attempt_try (attempt config QueryKey endpoint) ;;
    match byQuery with
    | inr models => ret models
    | inl e =>
      let lastError := Some (wrap_gemini e) in
      byHeader <- attempt_try (attempt config HeaderKey endpoint) ;;
      match byHeader with
      | inr models => ret models
      | inl e =>
        let lastError := Some (wrap_gemini e) in
        discover config rest lastError
      end
    end
  end.

Definition has_key (config : AIConfig) : bool :=
  match apiKey config with
  | Some (_ :: _) => true
  | _ => false
  end.

(** Lines 113-228. *)
Definition listModels (config : AIConfig) : M (list jsstring) :=
  if negb (has_key config) then throw (Error (js "请先在设置中配置 API Key"))
  else
    match provider config with
    | OpenAI =>
      let baseUrl := normalizeBaseUrl (baseUrl config) in
      try_catch
        (response <- fetch {| url := baseUrl ++ js "/models";
                              method := js "GET";
                              headers := [bearer config];
                              body := None |} ;;
         if negb (ok response) then throw_list_failure response
         else
           data <- response_json response ;;
           models <- lift (openai_ids data) ;;
           names <- lift (map_result as_string models) ;;
           ret (dedupeAndSort names))
        (fun e => throw (Error (openai_list_failed ++ formatNetworkError e)))
    | Gemini => discover config (endpoints config) None
    end.

(** A turn of the conversation history. *)
Inductive Role := User | Model.
Record ChatTurn := { turn_role : Role; turn_text : jsstring }.

Definition dquote : jsstring := [34%N].
Definition newline : jsstring := [10%N].

Definition persona : jsstring :=
  Eval vm_compute in
    js "你是一个专业的微信公众号文章编辑助手。请用中文回答。保持回答简洁、专业。".

Definition message_or (e : exn) (d : jsstring) : jsstring :=
  match exn_message e with
  | [] => d
  | m => m
  end.

(** Lines 232-269. *)
Definition generateChatResponse (config : AIConfig) (prompt : jsstring)
           (history : list ChatTurn) : M json :=
  if negb (has_key config) then throw (Error (js "请先在设置中配置 Chat API Key"))
  else
    match provider config with
    | OpenAI =>
      let messages :=
        List.map (fun h => {| msg_role := match turn_role h with
                                          | Model => js "assistant"
                                          | User => js "user"
                                          end;
                              msg_content := turn_text h |}) history
        ++ [{| msg_role := js "user"; msg_content := prompt |}] in
      callOpenAIChat config messages (Some persona)
    | Gemini =>
      let ai := createGeminiClient config in
      try_catch
        (let fullContext :=
           fold_left (fun acc h =>
                        acc ++ match turn_role h with
                               | User => js "User"
                               | Model => js "Model"
                               end ++ js ": " ++ turn_text h ++ newline)
                     history []
           ++ js "User: " ++ prompt in
         response <- sdk_generateContent ai
           {| gc_model := str_or (chatModel config) (js "gemini-3-flash-preview");
              gc_contents := TextContents fullContext;
              gc_systemInstruction := Some persona;
              gc_temperature := temperature config;
              gc_aspectRatio := None |} ;;
         ret (JStr (str_or (text response) (js "AI 未返回内容"))))
        (fun error =>
           console_error (js "AI Chat Error:") error ;;;
           throw (Error (message_or error (js "AI 请求失败"))))
    end.

(** Lines 274-281. *)
Definition formatting_prompt : jsstring :=
  Eval vm_compute in
    js "你是一个微信公众号排版专家。请对用户提供的文章内容进行自动排版优化，使其符合公众号阅读习惯。"
    ++ newline
    ++ js "  具体要求："
    ++ newline
    ++ js "  1. 结构优化：自动识别文章逻辑，使用 Markdown 标题语法 (#, ##, ###) 划分层级 (H1-H3)。"
    ++ newline
    ++ js "  2. 段落优化：将过长的段落拆分为简短的段落，适当增加空行，提升移动端阅读体验。"
    ++ newline
    ++ js "  3. 重点突出：识别关键信息、金句或总结，使用引用块 (>) 包裹；对核心关键词使用加粗 ("
    ++ js "**" ++ js ")。"
    ++ newline
    ++ js "  4. 列表优化：将步骤、要点等内容转换为无序列表 (-) 或有序列表 (1.)。"
    ++ newline
    ++ js "  5. 严禁篡改：保持原文核心意思和文字内容不变，仅做结构和样式的Markdown语法调整。"
    ++ newline
    ++ js "  6. 输出要求：直接返回优化后的 Markdown 源码，不要包含 "
    ++ dquote
    ++ js "好的"
    ++ dquote
    ++ js "、"
    ++ dquote
    ++ js "优化如下"
    ++ dquote
    ++ js " 等任何解释性废话。".

(** Lines 271-305. *)
Definition generateFormattedContent (config : AIConfig) (content : jsstring)
  : M json :=
  if negb (has_key config) then throw (Error (js "请先配置 Chat API Key"))
  else
    let systemPrompt := formatting_prompt in
    match provider config with
    | OpenAI =>
      callOpenAIChat config [{| msg_role := js "user"; msg_content := content |}]
                     (Some systemPrompt)
    | Gemini =>
      let ai := createGeminiClient config in
      try_catch
        (response <- sdk_generateContent ai
           {| gc_model := str_or (chatModel config) (js "gemini-3-flash-preview");
              gc_contents := TextContents content;
              gc_systemInstruction := Some systemPrompt;
              gc_temperature := Some (number_of_decimal 3 (-1));
              gc_aspectRatio := None |} ;;
         ret (JStr (str_or (text response) content)))
        (fun error =>
           console_error (js "AI Formatting Error:") error ;;;
           throw (Error (message_or error (js "排版请求失败"))))
    end.

(** The first part of line 357's loop that carries inline data. *)
Fixpoint first_inline (ps : list Part) : option Blob :=
  match ps with
  | [] => None
  | p :: rest =>
    match inlineData p with
    | Some blob => Some blob
    | None => first_inline rest
    end
  end.

(** [response.candidates?.[0]?.content?.parts] *)
Definition first_parts (response : GenerateContentResponse) : option (list Part) :=
  match candidates response with
  | Some (c :: _) =>
    match content c with
    | Some ct => parts ct
    | None => None
    end
  | _ => None
  end.

(** Lines 320-322. *)
Definition aspectRatio (size : jsstring) : jsstring :=
  let r := js "1:1" in
  let r := if includes (js "16:9") size then js "16:9" else r in
  if includes (js "4:3") size then js "4:3" else r.

(** Lines 307-373; an omitted [size] is the default ['1024x1024']. *)
Definition generateImage (config : AIConfig) (prompt : jsstring)
           (size : option jsstring) : M json :=
  let size := match size with
              | Some s => s
              | None => js "1024x1024"
              end in
  if negb (has_key config) then throw (Error (js "请先在设置中配置 绘图 API Key"))
  else
    match provider config with
    | OpenAI => callOpenAIImage config prompt size
    | Gemini =>
      let ai := createGeminiClient config in
      let modelName := str_or (imageModel config) (js "imagen-4.0-generate-001") in
      try_catch
        (let aspectRatio := aspectRatio size in
         returned <-
         (if includes (js "imagen") (toLowerCase modelName) then
            response <- sdk_generateImages ai
              {| gi_model := modelName;
                 gi_prompt := prompt;
                 gi_numberOfImages := 1;
                 gi_aspectRatio := aspectRatio;
                 gi_outputMimeType := js "image/jpeg" |} ;;
            match generatedImages response with
            | Some (g :: _) =>
              match image g with
              | Some img =>
                ret (Some (JStr (js "data:image/jpeg;base64," ++ text_of (imageBytes img))))
              | None => throw (raise ReadOfNullish)
              end
            | _ => ret None
            end
          else
            response <- sdk_generateContent ai
              {| gc_model := modelName;
                 gc_contents := PartsContents [prompt];
                 gc_systemInstruction := None;
                 gc_temperature := None;
                 gc_aspectRatio := Some aspectRatio |} ;;
            match first_parts response with
            | Some ps =>
              match first_inline ps with
              | Some blob =>
                ret (Some (JStr (js "data:" ++ str_or (mimeType blob) (js "image/png")
                                    ++ js ";base64," ++ text_of (data blob))))
              | None => ret None
              end
            | None => ret None
            end) ;;
         match returned with
         | Some uri => ret uri
         | None => throw (Error (js "未生成图片"))
         end)
        (fun error =>
           console_error (js "AI Image Error:") error ;;;
           throw (Error (message_or error (js "图片生成失败 (请检查模型权限/BaseURL)"))))
    end.

(** Lines 378-382, up to the interpolated [prompt]. *)
Definition theme_prompt_head : jsstring :=
  Eval vm_compute in
    js "你是一个CSS专家。请根据用户的描述，生成一段用于微信公众号文章预览的CSS代码。"
    ++ newline
    ++ js "   HTML结构在一个 id="
    ++ dquote
    ++ js "preview-root"
    ++ dquote
    ++ js " 的div中。"
    ++ newline
    ++ js "   请只返回纯CSS代码，不要包含markdown代码块标记（如 ```css ）。"
    ++ newline
    ++ js "   必须包含针对 #preview-root h1, h2, p, blockquote, img, li 的样式。"
    ++ newline
    ++ js "   风格必须符合：".

(** Lines 387-388 and 403-404. *)
Definition strip_fences (css : jsstring) : jsstring :=
  trim (remove_all (js "```") (remove_all (js "```css") css)).

(** Lines 375-405. *)
Definition generateThemeCSS (config : AIConfig) (prompt : jsstring) : M jsstring :=
  if negb (has_key config) then throw (Error (js "请先配置 Chat API Key 以生成主题"))
  else
    let systemPrompt := theme_prompt_head ++ prompt in
    match provider config with
    | OpenAI =>
      css <- callOpenAIChat config [{| msg_role := js "user"; msg_content := prompt |}]
                            (Some systemPrompt) ;;
      css <- lift (as_string css) ;;
      ret (strip_fences css)
    | Gemini =>
      let ai := createGeminiClient config in
      response <- sdk_generateContent ai
        {| gc_model := str_or (chatModel config) (js "gemini-3-flash-preview");
           gc_contents := TextContents prompt;
           gc_systemInstruction := Some systemPrompt;
           gc_temperature := Some (number_of_decimal 7 (-1));
           gc_aspectRatio := None |} ;;
      let css := str_or (text response) [] in
      ret (strip_fences css)
    end.

End Service.

(* ================================================================= *)
(** ** A reference host and sample worlds

    One instance of the host parameters on which the embedding runs:
    numbers are short decimals [m * 10^e] printed positionally, strings
    compare by code unit, lower casing covers the ASCII letters. *)

Module Sample.

Fixpoint code_unit_compare (a b : jsstring) : Z :=
  match a, b with
  | [], [] => 0
  | [], _ :: _ => -1
  | _ :: _, [] => 1
  | x :: a', y :: b' =>
    if (x <? y)%N then -1
    else if (y <? x)%N then 1
    else code_unit_compare a' b'
  end.

Fixpoint normalise (fuel : nat) (m e : Z) : Z * Z :=
  match fuel with
  | O => (m, e)
  | S fuel =>
    if ((e <? 0) && (m mod 10 =? 0) && negb (m =? 0))%Z
    then normalise fuel (m / 10)%Z (e + 1)%Z
    else (m, e)
  end.

Definition decimal_to_string (x : Z * Z) : jsstring :=
  let '(m, e) := normalise (Z.to_nat (- snd x)) (fst x) (snd x) in
  if (m =? 0)%Z then js "0"
  else
    let sign := if (m <? 0)%Z then js "-" else [] in
    let d := decimal (Z.to_nat (Z.abs m)) in
    if (0 <=? e)%Z then sign ++ d ++ repeat 48%N (Z.to_nat e)
    else
      let k := Z.to_nat (- e) in
      if List.length d <=? k
      then sign ++ js "0." ++ repeat 48%N (k - List.length d) ++ d
      else sign ++ firstn (List.length d - k) d ++ js "." ++ skipn (List.length d - k) d.

Definition ascii_lower (c : code_unit) : code_unit :=
  if ((65 <=? c) && (c <=? 90))%N then (c + 32)%N else c.

Definition engine : Engine := {|
  number := Z * Z;
  number_truthy := fun x => negb (fst x =? 0)%Z;
  number_to_string := decimal_to_string;
  number_of_decimal := fun m e => (m, e);
  localeCompare := code_unit_compare;
  toLowerCase := List.map ascii_lower;
  host_error_message := fun h =>
    match h with
    | ReadOfNullish => js "Cannot read properties of undefined"
    | NotAFunction => js "is not a function"
    | NotPrimitive => js "Cannot convert object to primitive value"
    | MalformedURI => js "URI malformed"
    end
|}.

#[local] Existing Instance engine.

Definition offline : exn := Error (js "offline").

(** A world that answers [fetch] by [f] and has no Gemini SDK backend. *)
Definition fetch_world (f : log -> Request -> exn + Response) : World :=
  {| fetch_reply := f;
     generateContent_reply := fun _ _ _ => inl offline;
     generateImages_reply := fun _ _ _ => inl offline |}.

(** A world whose SDK answers every [generateContent] with [r]. *)
Definition content_world (r : GenerateContentResponse) : World :=
  {| fetch_reply := fun _ _ => inl offline;
     generateContent_reply := fun _ _ _ => inr r;
     generateImages_reply := fun _ _ _ => inl offline |}.

Definition config_of (p : Provider) (key : option jsstring) : AIConfig :=
  {| provider := p; apiKey := key; baseUrl := None; chatModel := None;
     imageModel := None; temperature := None |}.

Definition success (v : json) : Response :=
  {| status := 200; statusText := js "OK"; json_body := inr v |}.

Definition model_entry (name : jsstring) : json :=
  JObj [(js "name", JStr name)].

Definition models_page (names : list jsstring) (next : option jsstring) : json :=
  JObj ((js "models", JArr (List.map model_entry names))
          :: match next with
             | Some t => [(js "nextPageToken", JStr t)]
             | None => []
             end).

(** Query-parameter authentication is refused with HTTP 403; a request
    carrying a header is served one page. *)
Definition header_only_world : World :=
  fetch_world (fun _ r =>
    match headers r with
    | [] => inr {| status := 403; statusText := js "Forbidden";
                   json_body := inr (JObj [(js "error",
                                            JObj [(js "message", JStr (js "denied"))])]) |}
    | _ => inr (success (models_page [js "models/gemini-pro"] None))
    end).

(** Every request is served the same page. *)
Definition page_world (page : json) : World :=
  fetch_world (fun _ _ => inr (success page)).

(** 501 distinct one-character names. *)
Definition many_names : list jsstring :=
  List.map (fun i => [(19968 + N.of_nat i)%N]) (seq 0 501).

(** Every request is refused with HTTP 401 and a structured error body. *)
Definition unauthorized_world : World :=
  fetch_world (fun _ _ =>
    inr {| status := 401; statusText := js "Unauthorized";
           json_body := inr (JObj [(js "error",
                                    JObj [(js "message", JStr (js "bad key"))])]) |}).


(** Every request is refused with HTTP 502, no status text and a body
    that is not JSON. *)
Definition bad_gateway_world : World :=
  fetch_world (fun _ _ =>
    inr {| status := 502; statusText := [];
           json_body := inl {| exn_name := js "SyntaxError";
                               exn_message := js "Unexpected token <" |} |}).


Definition gemini : AIConfig := config_of Gemini (Some (js "K")).
Definition openai : AIConfig := config_of OpenAI (Some (js "K")).
Definition no_key : AIConfig := config_of OpenAI (Some []).

(** Pages that never end: each carries one name and a next-page token. *)
Definition endless_world : World :=
  page_world (models_page [js "models/a"] (Some (js "t"))).

(** An image answer whose first entry has neither payload nor URL. *)
Definition empty_entry_world : World :=
  page_world (JObj [(js "data", JArr [JObj []])]).

Definition openai_models_world : World :=
  page_world (JObj [(js "data",
                     JArr [JObj [(js "id", JStr (js "gpt-4"))];
                           JObj [(js "id", JStr (js "gpt-4"))];
                           JObj [(js "id", JStr (js "gpt-3.5"))]])]).

Definition fenced_css : jsstring :=
  js "```css" ++ [10%N] ++ js "body{}" ++ [10%N] ++ js "```".

End Sample.

(* ================================================================= *)
(** ** Vocabulary of the properties *)

Section Vocabulary.
Context {E : Engine} (W : World).

(** One iteration of the pagination loop once its guards have passed:
    the request, the fetch and the reading of the page (lines 167-181
    and 199-218).  [paginate_step] below relates it to [paginate]. *)
Definition fetch_page (config : AIConfig) (auth : AuthMode) (endpoint : jsstring)
           (pageToken : option json) : M (list jsstring * option json) :=
  request <- lift (page_request config auth endpoint pageToken) ;;
  response <- fetch W request ;;
  if negb (ok response) then throw_list_failure response
  else
    data <- response_json response ;;
    pageModels <- lift (page_models data) ;;
    ret (pageModels, get_opt (Some data) (js "nextPageToken")).

(** The discovery candidates as the specification lists them: every
    endpoint in order, for each the key as a query parameter first and
    as a request header second. *)
Definition discovery_candidates (eps : list jsstring) : list (jsstring * AuthMode) :=
  flat_map (fun endpoint => [(endpoint, QueryKey); (endpoint, HeaderKey)]) eps.

(** [all_fail config cs s s']: started on the log [s], the attempts on
    the candidates [cs], made one after the other, all throw and leave
    the log [s']. *)
Inductive all_fail (config : AIConfig)
  : list (jsstring * AuthMode) -> log -> log -> Prop :=
| all_fail_nil s : all_fail config [] s s
| all_fail_cons endpoint auth cs s e s1 s2 :
    attempt W config auth endpoint s = (Throw e, s1) ->
    all_fail config cs s1 s2 ->
    all_fail config ((endpoint, auth) :: cs) s s2.

(** A name the world can serve: the [name] of an entry of the [models]
    array of a page it answers some request with. *)
Definition served (n : jsstring) : Prop :=
  exists s request response data items m,
    fetch_reply W s request = inr response /\
    json_body response = inr data /\
    get_opt (Some data) (js "models") = Some (JArr items) /\
    In m items /\
    get_opt (Some m) (js "name") = Some (JStr n).

(** The [size] field of the body of an image request. *)
Definition requested_size (ev : event) : option jsstring :=
  match ev with
  | EvFetch r =>
    match body r with
    | Some (ImageBody _ _ _ size _) => Some size
    | _ => None
    end
  | _ => None
  end.

(** The order [localeCompare] sorts by. *)
Definition locale_le (a b : jsstring) : Prop := (localeCompare a b <= 0)%Z.

(** The character [withSearchParams] puts before the query it appends
    (line 102). *)
Definition query_separator (url : jsstring) : jsstring :=
  if includes (js "?") url then js "&" else js "?".

(** How a request of an attempt presents the API key.  With [QueryKey]
    the request has no header and its URL is the endpoint followed by
    the query [key=<the encoded key>], and by [&pageToken=...] on a
    later page.  With [HeaderKey] the request carries the key in the
    header [x-goog-api-key] and its URL is the endpoint, followed on a
    later page by the query [pageToken=...]: the key is not in it. *)
Definition presents_key (config : AIConfig) (auth : AuthMode)
           (endpoint : jsstring) (q : Request) : Prop :=
  match auth with
  | QueryKey =>
    headers q = [] /\
    exists encoded,
      encodeURIComponent (text_of (apiKey config)) = Some encoded /\
      (url q = endpoint ++ query_separator endpoint ++ js "key=" ++ encoded
       \/ exists token,
            url q = endpoint ++ query_separator endpoint ++ js "key=" ++ encoded
                    ++ js "&pageToken=" ++ token)
  | HeaderKey =>
    headers q = [(js "x-goog-api-key", text_of (apiKey config))] /\
    (url q = endpoint
     \/ exists token,
          url q = endpoint ++ query_separator endpoint ++ js "pageToken=" ++ token)
  end.

(** [pages_fetched config auth endpoint pageToken s pages s']: started
    on the log [s] with the cursor [pageToken], the requests of one
    attempt were answered, one after the other, with successful
    responses whose [models] arrays gave the name lists [pages], each
    request carrying the [nextPageToken] of the page before it; the
    log is then [s']. *)
Inductive pages_fetched (config : AIConfig) (auth : AuthMode) (endpoint : jsstring)
  : option json -> log -> list (list jsstring) -> log -> Prop :=
| pages_none pageToken s :
    pages_fetched config auth endpoint pageToken s [] s
| pages_more pageToken s request response data pageModels pages s' :
    page_request config auth endpoint pageToken = inr request ->
    fetch_reply W s request = inr response ->
    ok response = true ->
    json_body response = inr data ->
    page_models data = inr pageModels ->
    pages_fetched config auth endpoint
                  (get_opt (Some data) (js "nextPageToken"))
                  (s ++ [EvFetch request]) pages s' ->
    pages_fetched config auth endpoint pageToken s (pageModels :: pages) s'.

End Vocabulary.

(** [p] occurs in [s] somewhere after its first code unit. *)
Definition occurs_inside (p s : jsstring) : bool :=
  match s with
  | [] => false
  | _ :: s' => includes p s'
  end.

(* ================================================================= *)
(** ** Facts about strings *)

Section StringFacts.

Lemma str_eqb_eq (a b : jsstring) : str_eqb a b = true <-> a = b.
Proof.
  unfold str_eqb. destruct (list_eq_dec N.eq_dec a b); split; congruence.
Qed.

Lemma str_eqb_neq (a b : jsstring) : str_eqb a b = false <-> a <> b.
Proof.
  unfold str_eqb. destruct (list_eq_dec N.eq_dec a b); split; congruence.
Qed.

Lemma starts_with_app (p r : jsstring) : starts_with p (p ++ r) = true.
Proof.
  induction p as [|a p IH]; simpl; [reflexivity|].
  now rewrite N.eqb_refl.
Qed.


Lemma starts_with_split (p s : jsstring) :
  starts_with p s = true -> s = p ++ skipn (List.length p) s.
Proof.
  revert s. induction p as [|a p IH]; intros [|b s]; simpl; try easy.
  intros H. apply andb_prop in H as [Hab H].
  apply N.eqb_eq in Hab. subst b. f_equal. now apply IH.
Qed.

Lemma strip_trailing_slash_snoc (y : jsstring) (c : code_unit) :
  strip_trailing_slash (y ++ [c]) = if (c =? slash)%N then y else y ++ [c].
Proof.
  unfold strip_trailing_slash. rewrite rev_app_distr. simpl.
  destruct (c =? slash)%N; [apply rev_involutive | reflexivity].
Qed.

Lemma ends_with_two_slashes (z : jsstring) (d c : code_unit) :
  ends_with [slash; slash] (z ++ [d; c])
  = ((slash =? c)%N && (slash =? d)%N).
Proof.
  unfold ends_with.
  replace (z ++ [d; c]) with ((z ++ [d]) ++ [c]) by now rewrite <- app_assoc.
  rewrite !rev_app_distr. simpl.
  now rewrite andb_true_r.
Qed.

Lemma snoc_cases (x : jsstring) : x = [] \/ exists y c, x = y ++ [c].
Proof.
  destruct x as [|a x]; [now left | right].
  destruct (exists_last (l := a :: x)) as (y & c & H); [discriminate|].
  now exists y, c.
Qed.

Lemma snoc_not_nil (y : jsstring) (c : code_unit) : y ++ [c] <> [].
Proof. destruct y; discriminate. Qed.

Lemma snoc_longer (z : jsstring) (d : code_unit) : z <> z ++ [d].
Proof.
  intros H. apply (f_equal (@List.length _)) in H.
  rewrite length_app in H. simpl in H. lia.
Qed.

Lemma normalizeBaseUrl_nonempty (u : jsstring) :
  u <> [] -> normalizeBaseUrl (Some u) = strip_trailing_slash u.
Proof. destruct u; [congruence | reflexivity]. Qed.

End StringFacts.

(* ================================================================= *)
(** ** Base-URL normalisation *)

Section BaseUrl.

Lemma normalizeBaseUrl_default :
  normalizeBaseUrl (Some openai_default_base) = openai_default_base.
Proof. reflexivity. Qed.

Lemma normalizeBaseUrl_fixed (u : jsstring) (c : code_unit) :
  c <> slash -> normalizeBaseUrl (Some (u ++ [c])) = u ++ [c].
Proof.
  intros Hc. rewrite normalizeBaseUrl_nonempty by apply snoc_not_nil.
  rewrite strip_trailing_slash_snoc.
  apply N.eqb_neq in Hc. now rewrite Hc.
Qed.

Lemma normalizeBaseUrl_slash (y : jsstring) :
  normalizeBaseUrl (Some (y ++ [slash])) = y.
Proof.
  rewrite normalizeBaseUrl_nonempty by apply snoc_not_nil.
  now rewrite strip_trailing_slash_snoc, N.eqb_refl.
Qed.

(** The normalisation removes one slash per pass, so a URL ending in
    two slashes loses one more on the second pass. *)
Lemma normalizeBaseUrl_not_idempotent :
  normalizeBaseUrl (Some (normalizeBaseUrl (Some (js "https://api.example.com/v1//"))))
  <> normalizeBaseUrl (Some (js "https://api.example.com/v1//")).
Proof. vm_compute. discriminate. Qed.

(** The normalisation of lines 15, 46 and 118 (strip one trailing
    slash, fall back to the default on an empty or absent URL) applied
    twice gives the same as applied once exactly for the inputs that
    are not the single slash and do not end in two slashes; the absent
    URL is such an input. *)
Lemma normalizeBaseUrl_idempotent_iff (x : jsstring) :
  (normalizeBaseUrl (Some (normalizeBaseUrl (Some x))) = normalizeBaseUrl (Some x)
   <-> x <> [slash] /\ ends_with [slash; slash] x = false)
  /\ normalizeBaseUrl (Some (normalizeBaseUrl None)) = normalizeBaseUrl None.
Proof.
  split; [|reflexivity].
  destruct (snoc_cases x) as [-> | (y & c & ->)].
  { split; [intros _; split; [discriminate | reflexivity] | reflexivity]. }
  destruct (N.eq_dec c slash) as [-> | Hc].
  - rewrite normalizeBaseUrl_slash.
    destruct (snoc_cases y) as [-> | (z & d & ->)].
    + simpl. split; [discriminate | intros [H _]; now elim H].
    + rewrite <- app_assoc. cbn [app]. rewrite ends_with_two_slashes.
      rewrite N.eqb_refl. cbn [andb].
      destruct (N.eq_dec d slash) as [-> | Hd].
      * rewrite normalizeBaseUrl_slash, N.eqb_refl.
        split; [intros H; now apply snoc_longer in H | intros [_ H]; discriminate].
      * rewrite normalizeBaseUrl_fixed by assumption.
        split; [intros _ | reflexivity].
        split.
        { intros H. apply (f_equal (@List.length _)) in H.
          rewrite length_app in H. simpl in H. lia. }
        apply N.eqb_neq. unfold slash in *. congruence.
  - rewrite !normalizeBaseUrl_fixed by assumption.
    split; [intros _ | reflexivity].
    split.
    + intros H. destruct y as [|a y]; simpl in H; [congruence|].
      injection H as _ H. now apply snoc_not_nil in H.
    + unfold ends_with. rewrite rev_app_distr. cbn [rev app starts_with].
      replace (slash =? c)%N with false; [reflexivity|].
      symmetry. apply N.eqb_neq. unfold slash in *. congruence.
Qed.

End BaseUrl.

(* ================================================================= *)
(** ** The pixel size of an OpenAI image request *)

Section ImageSize.

Lemma sizeStr_cases (size : jsstring) :
  (includes (js "1024") size = true -> sizeStr size = js "1024x1024")
  /\ (size = js "16:9" -> sizeStr size = js "1792x1024")
  /\ (size <> js "16:9" -> sizeStr size = js "1024x1024").
Proof.
  unfold sizeStr. repeat split.
  - now intros ->.
  - now intros ->.
  - intros H. apply str_eqb_neq in H. rewrite H. now destruct (includes _ size).
Qed.

End ImageSize.

(* ================================================================= *)
(** ** dedupeAndSort *)

Section DedupeAndSort.
Context {E : Engine}.

Lemma existsb_str_eqb (x : jsstring) (seen : list jsstring) :
  existsb (str_eqb x) seen = true <-> In x seen.
Proof.
  rewrite existsb_exists. split.
  - intros (y & Hy & Heq). apply str_eqb_eq in Heq. now subst.
  - intros H. exists x. split; [assumption | now apply str_eqb_eq].
Qed.

Lemma set_from_In (l seen : list jsstring) (x : jsstring) :
  In x (set_from seen l) <-> In x l /\ ~ In x seen.
Proof.
  revert seen. induction l as [|y l IH]; intros seen; simpl.
  - tauto.
  - destruct (existsb (str_eqb y) seen) eqn:Hy.
    + apply existsb_str_eqb in Hy. rewrite IH.
      split; [tauto|]. intros [[-> | H] Hn]; tauto.
    + assert (~ In y seen) as Hy'.
      { intros H. apply existsb_str_eqb in H. congruence. }
      simpl. rewrite IH. simpl.
      destruct (list_eq_dec N.eq_dec y x) as [-> | Hne]; [tauto|].
      split; [intros [H | [H1 H2]]; [congruence | tauto] | tauto].
Qed.

Lemma set_from_NoDup (l seen : list jsstring) : NoDup (set_from seen l).
Proof.
  revert seen. induction l as [|y l IH]; intros seen; simpl.
  - constructor.
  - destruct (existsb (str_eqb y) seen); [apply IH|].
    constructor; [|apply IH].
    rewrite set_from_In. simpl. tauto.
Qed.

Lemma insert_sorted_perm (x : jsstring) (l : list jsstring) :
  Permutation (insert_sorted x l) (x :: l).
Proof.
  induction l as [|y l IH]; simpl; [reflexivity|].
  destruct (localeCompare x y <=? 0)%Z; [reflexivity|].
  rewrite IH. apply perm_swap.
Qed.

Lemma sort_perm (l : list jsstring) : Permutation (sort l) l.
Proof.
  induction l as [|x l IH]; simpl; [reflexivity|].
  rewrite insert_sorted_perm. now constructor.
Qed.

Section Consistent.
(** The comparator is consistent, as [Array.prototype.sort] requires
    for a defined sort order: total and transitive. *)
Hypothesis locale_le_total : forall a b, locale_le a b \/ locale_le b a.
Hypothesis locale_le_trans :
  forall a b c, locale_le a b -> locale_le b c -> locale_le a c.

Lemma insert_sorted_sorted (x : jsstring) (l : list jsstring) :
  StronglySorted locale_le l -> StronglySorted locale_le (insert_sorted x l).
Proof.
  induction 1 as [|y l Hs IH Hall]; simpl.
  - repeat constructor.
  - destruct (localeCompare x y <=? 0)%Z eqn:Hxy.
    + apply Z.leb_le in Hxy.
      constructor; [now constructor|].
      constructor; [exact Hxy|].
      eapply Forall_impl; [|exact Hall].
      intros z Hz. now apply locale_le_trans with y.
    + apply Z.leb_gt in Hxy.
      assert (locale_le y x) as Hyx.
      { destruct (locale_le_total x y) as [H | H]; [unfold locale_le in H; lia | exact H]. }
      constructor; [exact IH|].
      eapply Permutation_Forall; [symmetry; apply insert_sorted_perm|].
      now constructor.
Qed.

Lemma sort_sorted (l : list jsstring) : StronglySorted locale_le (sort l).
Proof.
  induction l as [|x l IH]; simpl; [constructor|].
  now apply insert_sorted_sorted.
Qed.

End Consistent.

Lemma dedupeAndSort_In (models : list jsstring) (x : jsstring) :
  In x (dedupeAndSort models) <-> x <> [] /\ exists m, In m models /\ x = trim m.
Proof.
  unfold dedupeAndSort.
  split.
  - intros H. apply (Permutation_in _ (sort_perm _)) in H.
    apply set_from_In in H as [H _].
    apply filter_In in H as [H Hne].
    apply in_map_iff in H as (m & <- & Hm).
    split; [|now exists m].
    unfold nonempty in Hne. apply negb_true_iff, str_eqb_neq in Hne. exact Hne.
  - intros (Hne & m & Hm & ->).
    apply (Permutation_in _ (Permutation_sym (sort_perm _))).
    apply set_from_In. split; [|tauto].
    apply filter_In. split; [now apply in_map|].
    unfold nonempty. now apply negb_true_iff, str_eqb_neq.
Qed.

Lemma dedupeAndSort_NoDup (models : list jsstring) : NoDup (dedupeAndSort models).
Proof.
  unfold dedupeAndSort.
  eapply Permutation_NoDup; [symmetry; apply sort_perm | apply set_from_NoDup].
Qed.

(** C7: [dedupeAndSort] returns exactly the non-empty trimmed entries
    of its input, each once, in ascending [localeCompare] order (the
    comparator being consistent). *)
Theorem dedupeAndSort_spec (models : list jsstring)
        (locale_le_total : forall a b, locale_le a b \/ locale_le b a)
        (locale_le_trans :
           forall a b c, locale_le a b -> locale_le b c -> locale_le a c) :
  (forall x, In x (dedupeAndSort models)
             <-> x <> [] /\ exists m, In m models /\ x = trim m)
  /\ NoDup (dedupeAndSort models)
  /\ StronglySorted locale_le (dedupeAndSort models).
Proof.
  split; [apply dedupeAndSort_In|].
  split; [apply dedupeAndSort_NoDup|].
  unfold dedupeAndSort. now apply sort_sorted.
Qed.

End DedupeAndSort.

(* ================================================================= *)
(** ** Pagination *)

Ltac unfold_monad :=
  unfold response_json, console_error in *;
  unfold lift, emit, fetch, sdk_generateContent, sdk_generateImages,
    try_catch, attempt_try, bind in *;
  unfold ret, throw in *.

Ltac break_match_hyp H :=
  repeat match type of H with
         | context [match ?x with _ => _ end] => destruct x eqn:?
         | context [if ?x then _ else _] => destruct x eqn:?
         end.

Ltac break_match_goal :=
  repeat match goal with
         | |- context [match ?x with _ => _ end] => destruct x eqn:?
         | |- context [if ?x then _ else _] => destruct x eqn:?
         end.

Section Pagination.
Context {E : Engine} (W : World).
Variables (config : AIConfig) (auth : AuthMode) (endpoint : jsstring).

Lemma throw_list_failure_throws (A : Type) (response : Response) (s : log) :
  exists e, @throw_list_failure E A response s = (Throw e, s).
Proof.
  unfold throw_list_failure. unfold_monad.
  destruct (stringify (failure_detail response)); eauto.
Qed.

(** [paginate] is the iteration of [fetch_page]. *)
Lemma paginate_step (fuel : nat) (models : list jsstring) (pageToken : option json)
      (guard : nat) (s : log) :
  paginate W config auth endpoint (S fuel) models pageToken guard s =
  if (20 <? S guard) || (500 <? List.length models) then (Ok models, s)
  else
    match fetch_page W config auth endpoint pageToken s with
    | (Ok (pageModels, next), s1) =>
      if truthy_opt next
      then paginate W config auth endpoint fuel (models ++ pageModels) next (S guard) s1
      else (Ok (models ++ pageModels), s1)
    | (Throw e, s1) => (Throw e, s1)
    | (OutOfFuel, s1) => (OutOfFuel, s1)
    end.
Proof.
  cbn [paginate]. unfold fetch_page.
  destruct ((20 <? S guard) || (500 <? List.length models)); [reflexivity|].
  unfold_monad.
  destruct (page_request config auth endpoint pageToken) as [e | request];
    [reflexivity|].
  destruct (fetch_reply W s request) as [e | response]; [reflexivity|].
  destruct (negb (ok response)).
  - destruct (throw_list_failure_throws (list jsstring) response
                (s ++ [EvFetch request])) as (e & He).
    destruct (throw_list_failure_throws (list jsstring * option json) response
                (s ++ [EvFetch request])) as (e' & He').
    unfold throw_list_failure in *. unfold_monad.
    destruct (stringify (failure_detail response)); reflexivity.
  - destruct (json_body response) as [e | data]; [reflexivity|].
    destruct (page_models data) as [e | pageModels]; [reflexivity|].
    now destruct (truthy_opt (get_opt (Some data) (js "nextPageToken"))).
Qed.

(** A page costs at most one fetch and never runs out of fuel. *)
Lemma fetch_page_log (pageToken : option json) (s s' : log)
      (r : outcome (list jsstring * option json)) :
  fetch_page W config auth endpoint pageToken s = (r, s') ->
  r <> OutOfFuel /\ exists reqs, s' = s ++ List.map EvFetch reqs /\ List.length reqs <= 1.
Proof.
  unfold fetch_page. unfold_monad.
  destruct (page_request config auth endpoint pageToken) as [e | request].
  { intros [= <- <-]. split; [discriminate|].
    exists []. simpl. rewrite app_nil_r. split; [reflexivity | lia]. }
  assert (exists reqs, s ++ [EvFetch request] = s ++ List.map EvFetch reqs
                       /\ List.length reqs <= 1) as Hlog.
  { exists [request]. split; [reflexivity | simpl; lia]. }
  destruct (fetch_reply W s request) as [e | response].
  { intros [= <- <-]. split; [discriminate | exact Hlog]. }
  destruct (negb (ok response)).
  - destruct (throw_list_failure_throws (list jsstring * option json) response
                (s ++ [EvFetch request])) as (e & He).
    unfold throw_list_failure in *. unfold_monad. rewrite He.
    intros [= <- <-]. split; [discriminate | exact Hlog].
  - destruct (json_body response) as [e | data].
    { intros [= <- <-]. split; [discriminate | exact Hlog]. }
    destruct (page_models data) as [e | pageModels];
      intros [= <- <-]; (split; [discriminate | exact Hlog]).
Qed.

(** The loop entered with [guard] and [20 - guard] further units of
    fuel: it ends, fetches at most [20 - guard] pages, and what it
    returns beyond [models] was complete up to its last page while the
    count was still within 500. *)
Lemma paginate_bounded (left : nat) :
  forall (models : list jsstring) (pageToken : option json) (guard : nat)
         (s s' : log) (r : outcome (list jsstring)),
    guard + left = 20 ->
    paginate W config auth endpoint (S left) models pageToken guard s = (r, s') ->
    r <> OutOfFuel
    /\ (exists reqs, s' = s ++ List.map EvFetch reqs /\ List.length reqs <= left)
    /\ (forall ms, r = Ok ms ->
                   ms = models
                   \/ exists before page,
                        ms = before ++ page /\ List.length before <= 500).
Proof.
  induction left as [|left IH]; intros models pageToken guard s s' r Hg;
    rewrite paginate_step.
  - replace (20 <? S guard) with true by (symmetry; apply Nat.ltb_lt; lia).
    cbn [orb]. intros [= <- <-].
    split; [discriminate|]. split; [|intros ms [= <-]; now left].
    exists []. simpl. rewrite app_nil_r. split; [reflexivity | lia].
  - destruct ((20 <? S guard) || (500 <? List.length models)) eqn:Hb.
    { intros [= <- <-].
      split; [discriminate|]. split; [|intros ms [= <-]; now left].
      exists []. rewrite app_nil_r. split; [reflexivity | simpl; lia]. }
    apply orb_false_iff in Hb as [_ Hlen]. apply Nat.ltb_ge in Hlen.
    destruct (fetch_page W config auth endpoint pageToken s)
      as [[[pageModels next] | e |] s1] eqn:Hpage;
      apply fetch_page_log in Hpage as (Hfuel & reqs & -> & Hreqs).
    + destruct (truthy_opt next).
      * intros Hrec. apply IH in Hrec as (Hr & (reqs' & -> & Hreqs') & Hms); [|lia].
        split; [exact Hr|]. split.
        -- exists (reqs ++ reqs'). rewrite map_app, app_assoc.
           split; [reflexivity | rewrite length_app; lia].
        -- intros ms Hok. right. destruct (Hms ms Hok) as [-> | H]; [|exact H].
           now exists models, pageModels.
      * intros [= <- <-]. split; [discriminate|]. split.
        -- exists reqs. split; [reflexivity | lia].
        -- intros ms [= <-]. right. now exists models, pageModels.
    + intros [= <- <-]. split; [discriminate|]. split; [|discriminate].
      exists reqs. split; [reflexivity | lia].
    + now elim Hfuel.
Qed.

(** The loop stops at either bound without failing and without a fetch. *)
Lemma paginate_break (fuel : nat) (models : list jsstring) (pageToken : option json)
      (guard : nat) (s : log) :
  20 <= guard \/ 500 < List.length models ->
  paginate W config auth endpoint (S fuel) models pageToken guard s = (Ok models, s).
Proof.
  intros H. rewrite paginate_step.
  replace ((20 <? S guard) || (500 <? List.length models)) with true; [reflexivity|].
  symmetry. apply orb_true_iff.
  destruct H as [H | H]; [left | right]; apply Nat.ltb_lt; lia.
Qed.

Lemma attempt_inv (s s' : log) (r : outcome (list jsstring)) :
  attempt W config auth endpoint s = (r, s') ->
  exists r0, paginate W config auth endpoint 21 [] None 0 s = (r0, s')
             /\ r = match r0 with
                    | Ok raw => Ok (dedupeAndSort raw)
                    | Throw e => Throw e
                    | OutOfFuel => OutOfFuel
                    end.
Proof.
  unfold attempt. unfold_monad.
  destruct (paginate W config auth endpoint 21 [] None 0 s) as [[raw | e |] s1];
    intros [= <- <-]; eexists; split; reflexivity.
Qed.

Lemma fetch_page_ok (pageToken next : option json) (s s' : log)
      (pageModels : list jsstring) :
  fetch_page W config auth endpoint pageToken s = (Ok (pageModels, next), s') ->
  exists request response data,
    page_request config auth endpoint pageToken = inr request
    /\ fetch_reply W s request = inr response
    /\ ok response = true
    /\ json_body response = inr data
    /\ page_models data = inr pageModels
    /\ next = get_opt (Some data) (js "nextPageToken")
    /\ s' = s ++ [EvFetch request].
Proof.
  unfold fetch_page. unfold_monad.
  destruct (page_request config auth endpoint pageToken) as [e | request];
    [discriminate|].
  destruct (fetch_reply W s request) as [e | response] eqn:Hreply; [discriminate|].
  destruct (ok response) eqn:Hok; cbn [negb].
  2: { destruct (throw_list_failure_throws (list jsstring * option json) response
                  (s ++ [EvFetch request])) as (e & He).
       unfold throw_list_failure in *. unfold_monad. rewrite He. discriminate. }
  destruct (json_body response) as [e | data] eqn:Hbody; [discriminate|].
  destruct (page_models data) as [e | names] eqn:Hnames; [discriminate|].
  intros [= <- <- <-]. exists request, response, data. repeat split; auto.
Qed.

(** What the loop returns is what it was entered with followed by the
    pages it fetched, in order; before it fetched the last of them it
    held at most 500 entries. *)
Lemma paginate_pages (left : nat) :
  forall (models : list jsstring) (pageToken : option json) (guard : nat)
         (s s' : log) (raw : list jsstring),
    guard + left = 20 ->
    paginate W config auth endpoint (S left) models pageToken guard s = (Ok raw, s') ->
    exists pages,
      pages_fetched W config auth endpoint pageToken s pages s'
      /\ raw = models ++ List.concat pages
      /\ List.length pages <= left
      /\ (pages <> [] ->
          List.length (models ++ List.concat (removelast pages)) <= 500).
Proof.
  induction left as [|left IH]; intros models pageToken guard s s' raw Hg;
    rewrite paginate_step.
  - replace (20 <? S guard) with true by (symmetry; apply Nat.ltb_lt; lia).
    cbn [orb]. intros [= <- <-]. exists [].
    split; [constructor|]. split; [now rewrite app_nil_r|].
    split; [reflexivity | congruence].
  - destruct ((20 <? S guard) || (500 <? List.length models)) eqn:Hb.
    { intros [= <- <-]. exists [].
      split; [constructor|]. split; [now rewrite app_nil_r|].
      split; [cbn [List.length]; lia | congruence]. }
    apply orb_false_iff in Hb as [_ Hlen]. apply Nat.ltb_ge in Hlen.
    destruct (fetch_page W config auth endpoint pageToken s)
      as [[[pageModels next] | e |] s1] eqn:Hpage; try discriminate.
    apply fetch_page_ok in Hpage
      as (request & response & data & Hq & Hreply & Hok & Hbody & Hnames & -> & ->).
    destruct (truthy_opt (get_opt (Some data) (js "nextPageToken"))).
    + intros Hrec.
      apply IH in Hrec as (pages & Hpages & -> & Hcount & Hlast); [|lia].
      exists (pageModels :: pages).
      split; [now apply pages_more with request response data|].
      split; [cbn [List.concat]; now rewrite <- app_assoc|].
      split; [cbn [List.length]; lia|].
      intros _. destruct pages as [|page pages].
      * cbn [removelast List.concat]. now rewrite app_nil_r.
      * change (removelast (pageModels :: page :: pages))
          with (pageModels :: removelast (page :: pages)).
        cbn [List.concat]. rewrite app_assoc. apply Hlast. discriminate.
    + intros [= <- <-]. exists [pageModels].
      split; [apply pages_more with request response data; auto; constructor|].
      split; [cbn [List.concat]; now rewrite app_nil_r|].
      split; [cbn [List.length]; lia|].
      intros _. cbn [removelast List.concat]. now rewrite app_nil_r.
Qed.

(** Each page fetched costs exactly one request. *)
Lemma pages_fetched_log (pageToken : option json) (s s' : log)
      (pages : list (list jsstring)) :
  pages_fetched W config auth endpoint pageToken s pages s' ->
  exists reqs,
    s' = s ++ List.map EvFetch reqs /\ List.length reqs = List.length pages.
Proof.
  induction 1 as [tok s | tok s request response data pageModels pages s' _ _ _ _ _ _ IH].
  - exists []. cbn [List.map]. now rewrite app_nil_r.
  - destruct IH as (reqs & -> & Hlen). exists (request :: reqs).
    split; [now rewrite <- app_assoc | cbn [List.length]; now rewrite Hlen].
Qed.

(** C2, amended: one attempt issues at most 20 page fetches (and does
    nothing else to the outside) and fetches no further page once more
    than 500 entries have accumulated: what a successful attempt has
    accumulated is the concatenation, in order, of the pages it
    fetched, one request each and at most 20, and the pages before the
    last one hold at most 500 entries together (the last page is added
    whole, so the total is not capped); hitting either bound ends the
    loop without a failure, and the accumulated list is deduplicated,
    sorted and returned. *)
Theorem pagination_bounds (s s' : log) (r : outcome (list jsstring))
        (Hrun : attempt W config auth endpoint s = (r, s')) :
  (exists reqs, s' = s ++ List.map EvFetch reqs /\ List.length reqs <= 20)
  /\ r <> OutOfFuel
  /\ (forall ms, r = Ok ms ->
                 exists pages reqs,
                   pages_fetched W config auth endpoint None s pages s'
                   /\ s' = s ++ List.map EvFetch reqs
                   /\ List.length reqs = List.length pages
                   /\ List.length pages <= 20
                   /\ List.length (List.concat (removelast pages)) <= 500
                   /\ paginate W config auth endpoint 21 [] None 0 s
                      = (Ok (List.concat pages), s')
                   /\ ms = dedupeAndSort (List.concat pages))
  /\ (forall fuel models pageToken guard s0,
         20 <= guard \/ 500 < List.length models ->
         paginate W config auth endpoint (S fuel) models pageToken guard s0
         = (Ok models, s0)).
Proof.
  apply attempt_inv in Hrun as (r0 & Hp & ->).
  pose proof (@paginate_bounded 20 [] None 0 s s' r0 eq_refl Hp)
    as (Hfuel & Hlog & _).
  split; [exact Hlog|].
  split; [destruct r0; [discriminate | discriminate | now elim Hfuel]|].
  split; [|intros; now apply paginate_break].
  intros ms Hok.
  destruct r0 as [raw | e |]; try discriminate.
  injection Hok as <-.
  destruct (@paginate_pages 20 [] None 0 s s' raw eq_refl Hp)
    as (pages & Hpages & Hraw & Hcount & Hlast).
  cbn [app] in Hraw, Hlast. subst raw.
  destruct (pages_fetched_log Hpages) as (reqs & Hs' & Hreqs).
  exists pages, reqs.
  split; [exact Hpages|]. split; [exact Hs'|]. split; [exact Hreqs|].
  split; [exact Hcount|].
  split; [|split; [exact Hp | reflexivity]].
  destruct pages as [|page pages]; [cbn; lia|].
  apply Hlast. discriminate.
Qed.

End Pagination.

(* ================================================================= *)
(** ** Names read from a page *)

Section Names.
Context {E : Engine}.

Lemma or_else_inv (a : option json) (b v : json) :
  or_else a b = v -> (a = Some v /\ truthy v = true) \/ v = b.
Proof.
  unfold or_else. destruct a as [x|]; [|now right].
  destruct (truthy x) eqn:Hx; intros <-; [left | right]; auto.
Qed.

Lemma map_result_In {A B : Type} (f : A -> exn + B) (l : list A) (ys : list B) :
  map_result f l = inr ys ->
  forall y, In y ys -> exists x, In x l /\ f x = inr y.
Proof.
  revert ys. induction l as [|x l IH]; simpl; intros ys.
  - intros [= <-] y [].
  - destruct (f x) as [e | y0] eqn:Hx; [discriminate|].
    destruct (map_result f l) as [e | ys0]; [discriminate|].
    intros [= <-] y [<- | Hy].
    + exists x. auto.
    + destruct (IH ys0 eq_refl y Hy) as (x' & Hin & Hf). exists x'. auto.
Qed.

Lemma stripGeminiModelPrefix_nil : stripGeminiModelPrefix [] = [].
Proof. reflexivity. Qed.

Lemma stripGeminiModelPrefix_prefixed (r : jsstring) :
  stripGeminiModelPrefix (models_prefix ++ r) = r.
Proof.
  unfold stripGeminiModelPrefix. rewrite starts_with_app.
  now rewrite skipn_app, skipn_all, Nat.sub_diag.
Qed.

Lemma stripGeminiModelPrefix_other (n : jsstring) :
  starts_with models_prefix n = false -> stripGeminiModelPrefix n = n.
Proof. unfold stripGeminiModelPrefix. now intros ->. Qed.

(** Every name accumulated from a page is a non-empty stripped [name]
    of an entry of its [models] array. *)
Lemma page_models_names (data : json) (pageModels : list jsstring) :
  page_models data = inr pageModels ->
  forall x, In x pageModels ->
    x <> [] /\
    exists items m n,
      get_opt (Some data) (js "models") = Some (JArr items) /\ In m items /\
      get_opt (Some m) (js "name") = Some (JStr n) /\
      x = stripGeminiModelPrefix n.
Proof.
  unfold page_models, bind_result.
  destruct (as_array _) as [e | items] eqn:Harr; [discriminate|].
  destruct (map_result _ items) as [e | names] eqn:Hmap; [discriminate|].
  intros [= <-] x Hx.
  apply filter_In in Hx as [Hx Hne].
  assert (x <> []) as Hx0.
  { unfold nonempty in Hne. now apply negb_true_iff, str_eqb_neq in Hne. }
  split; [exact Hx0|].
  destruct (map_result_In _ _ Hmap x Hx) as (m & Hm & Hf).
  destruct (as_string _) as [e | name] eqn:Hname; [discriminate|].
  injection Hf as <-.
  unfold as_array in Harr.
  destruct (or_else (get_opt (Some data) (js "models")) (JArr [])) eqn:Hor;
    try discriminate.
  injection Harr as ->.
  apply or_else_inv in Hor as [[Hget _] | [= ->]]; [|now elim Hm].
  unfold as_string in Hname.
  destruct (or_else (get_opt (Some m) (js "name")) (JStr [])) eqn:Hor';
    try discriminate.
  injection Hname as ->.
  apply or_else_inv in Hor' as [[Hget' _] | [= ->]].
  - now exists items, m, name.
  - now elim Hx0.
Qed.

Lemma trim_start_skipn (s : jsstring) : exists k, trim_start s = skipn k s.
Proof.
  induction s as [|c s [k IH]]; [now exists 0|].
  simpl. destruct (is_space c); [now exists (S k) | now exists 0].
Qed.

Lemma trim_end_firstn (t : jsstring) : exists j, trim_end t = firstn j t.
Proof.
  unfold trim_end. destruct (trim_start_skipn (rev t)) as [k ->].
  exists (List.length t - k). now rewrite skipn_rev, rev_involutive.
Qed.

Lemma starts_with_firstn (p t : jsstring) (j : nat) :
  starts_with p (firstn j t) = true -> starts_with p t = true.
Proof.
  revert t j. induction p as [|a p IH]; intros t j; [reflexivity|].
  destruct t as [|b t]; destruct j; simpl; try discriminate.
  intros H. apply andb_prop in H as [-> H]. simpl. now apply IH with j.
Qed.

Lemma includes_skipn (p s : jsstring) (k : nat) :
  starts_with p (skipn k s) = true -> includes p s = true.
Proof.
  revert s. induction k as [|k IH]; intros s.
  - simpl. intros H. destruct s; simpl in *; now rewrite H.
  - destruct s as [|a s]; simpl.
    + intros ->. reflexivity.
    + intros H. rewrite (IH _ H). apply orb_true_r.
Qed.

Lemma trim_occurrence (p r : jsstring) :
  starts_with p (trim r) = true -> exists k, starts_with p (skipn k r) = true.
Proof.
  unfold trim. destruct (trim_start_skipn r) as [k ->].
  destruct (trim_end_firstn (skipn k r)) as [j ->].
  intros H. exists k. now apply starts_with_firstn with j.
Qed.

(** Stripping removes the only occurrence there is, when the name
    carries the prefix nowhere but at its start. *)
Lemma stripped_clean (n : jsstring) :
  occurs_inside models_prefix n = false ->
  starts_with models_prefix (trim (stripGeminiModelPrefix n)) = false.
Proof.
  intros Hclean.
  destruct (starts_with models_prefix (trim (stripGeminiModelPrefix n))) eqn:H;
    [exfalso | reflexivity].
  apply trim_occurrence in H as [k H].
  unfold stripGeminiModelPrefix in H.
  destruct (starts_with models_prefix n) eqn:Hn.
  - rewrite skipn_skipn in H.
    destruct n as [|a n]; [discriminate|].
    change (List.length models_prefix) with 7 in H.
    replace (k + 7) with (S (k + 6)) in H by lia.
    cbn [skipn] in H. cbn [occurs_inside] in Hclean.
    apply includes_skipn in H. congruence.
  - destruct k as [|k]; [cbn [skipn] in H; congruence|].
    destruct n as [|a n]; [discriminate|].
    cbn [skipn] in H. cbn [occurs_inside] in Hclean.
    apply includes_skipn in H. congruence.
Qed.

End Names.

(* ================================================================= *)
(** ** The discovery cascade *)

Section Discovery.
Context {E : Engine} (W : World).
Variable config : AIConfig.

Lemma fetch_page_served (auth : AuthMode) (endpoint : jsstring)
      (pageToken next : option json) (s s' : log) (pageModels : list jsstring) :
  fetch_page W config auth endpoint pageToken s = (Ok (pageModels, next), s') ->
  forall x, In x pageModels ->
    x <> [] /\ exists n, served W n /\ x = stripGeminiModelPrefix n.
Proof.
  unfold fetch_page. unfold_monad.
  destruct (page_request config auth endpoint pageToken) as [e | request];
    [discriminate|].
  destruct (fetch_reply W s request) as [e | response] eqn:Hreply; [discriminate|].
  destruct (negb (ok response)).
  { destruct (throw_list_failure_throws (list jsstring * option json) response
                (s ++ [EvFetch request])) as (e & He).
    unfold throw_list_failure in *. unfold_monad. rewrite He. discriminate. }
  destruct (json_body response) as [e | data] eqn:Hbody; [discriminate|].
  destruct (page_models data) as [e | names] eqn:Hnames; [discriminate|].
  intros [= <- _ _] x Hx.
  destruct (page_models_names _ Hnames x Hx)
    as (Hne & items & m & n & Hitems & Hm & Hn & ->).
  split; [exact Hne|].
  exists n. split; [|reflexivity].
  now exists s, request, response, data, items, m.
Qed.

Lemma paginate_served (auth : AuthMode) (endpoint : jsstring) (fuel : nat) :
  forall (models : list jsstring) (pageToken : option json) (guard : nat)
         (s s' : log) (raw : list jsstring),
    paginate W config auth endpoint fuel models pageToken guard s = (Ok raw, s') ->
    forall x, In x raw ->
      In x models \/ (x <> [] /\ exists n, served W n /\ x = stripGeminiModelPrefix n).
Proof.
  induction fuel as [|fuel IH]; intros models pageToken guard s s' raw;
    [discriminate|].
  rewrite paginate_step.
  destruct ((20 <? S guard) || (500 <? List.length models)).
  { intros [= <- _] x Hx. now left. }
  destruct (fetch_page W config auth endpoint pageToken s)
    as [[[pageModels next] | e |] s1] eqn:Hpage; try discriminate.
  pose proof (fetch_page_served _ _ _ _ Hpage) as Hserved.
  assert (forall x, In x (models ++ pageModels) ->
                    In x models
                    \/ (x <> [] /\ exists n, served W n /\ x = stripGeminiModelPrefix n))
    as Hacc.
  { intros x Hx. apply in_app_or in Hx as [Hx | Hx]; [now left | right; auto]. }
  destruct (truthy_opt next).
  - intros Hrec x Hx.
    destruct (IH _ _ _ _ _ _ Hrec x Hx) as [Hin | Hs]; [auto | now right].
  - intros [= <- _]. exact Hacc.
Qed.

Lemma attempt_ok (auth : AuthMode) (endpoint : jsstring) (s s' : log)
      (ms : list jsstring) :
  attempt W config auth endpoint s = (Ok ms, s') ->
  exists raw, paginate W config auth endpoint 21 [] None 0 s = (Ok raw, s')
              /\ ms = dedupeAndSort raw.
Proof.
  intros H. apply attempt_inv in H as (r0 & Hp & Hr).
  destruct r0 as [raw | e |]; try discriminate.
  injection Hr as ->. exists raw. split; [exact Hp | reflexivity].
Qed.

(** A successful discovery is a successful attempt. *)
Lemma discover_ok (eps : list jsstring) :
  forall (lastError : option exn) (s s' : log) (ms : list jsstring),
    discover W config eps lastError s = (Ok ms, s') ->
    exists endpoint auth s1,
      In endpoint eps /\ attempt W config auth endpoint s1 = (Ok ms, s').
Proof.
  induction eps as [|endpoint eps IH]; intros lastError s s' ms; simpl.
  { unfold_monad. discriminate. }
  unfold_monad.
  destruct (attempt W config QueryKey endpoint s) as [[ms1 | e1 |] s1] eqn:H1;
    try discriminate.
  { intros [= <- <-]. exists endpoint, QueryKey, s. auto. }
  destruct (attempt W config HeaderKey endpoint s1) as [[ms2 | e2 |] s2] eqn:H2;
    try discriminate.
  { intros [= <- <-]. exists endpoint, HeaderKey, s1. auto. }
  intros Hrec. apply IH in Hrec as (ep & auth & s3 & Hin & Hatt).
  exists ep, auth, s3. auto.
Qed.

(** The loop of the code tries the candidates in the order of the
    specification and returns at the first success. *)
Lemma discover_first_success (eps : list jsstring) :
  forall (lastError : option exn) (before after : list (jsstring * AuthMode))
         (endpoint : jsstring) (auth : AuthMode) (s s1 s2 : log)
         (ms : list jsstring),
    discovery_candidates eps = before ++ (endpoint, auth) :: after ->
    all_fail W config before s s1 ->
    attempt W config auth endpoint s1 = (Ok ms, s2) ->
    discover W config eps lastError s = (Ok ms, s2).
Proof.
  induction eps as [|ep eps IH];
    intros lastError before after endpoint auth s s1 s2 ms Hc Hfail Hok.
  { destruct before; discriminate. }
  cbn [discovery_candidates flat_map app] in Hc.
  cbn [discover]. unfold_monad.
  inversion Hfail as [s0 | ep1 auth1 cs s0 e1 sa sb Hf1 Hrest1]; subst.
  { injection Hc as <- <-. now rewrite Hok. }
  injection Hc as <- <- Hc. rewrite Hf1.
  inversion Hrest1 as [s0 | ep2 auth2 cs2 s0 e2 sc sd Hf2 Hrest2]; subst.
  { injection Hc as <- <-. now rewrite Hok. }
  injection Hc as <- <- Hc. rewrite Hf2.
  now apply IH with cs2 after endpoint auth s1.
Qed.

Lemma listModels_gemini (s : log) :
  has_key config = true -> provider config = Gemini ->
  listModels W config s = discover W config (endpoints config) None s.
Proof. unfold listModels. now intros -> ->. Qed.

Lemma encode_token_pair (v : json) :
  encode_pair (js "pageToken") v
  = match stringify v with
    | inl e => inl e
    | inr sv =>
      match encodeURIComponent sv with
      | None => inl (raise MalformedURI)
      | Some ev => inr (js "pageToken=" ++ ev)
      end
    end.
Proof. reflexivity. Qed.

Lemma encode_key_pair (key : jsstring) :
  encode_pair (js "key") (JStr key)
  = match encodeURIComponent key with
    | None => inl (raise MalformedURI)
    | Some ek => inr (js "key=" ++ ek)
    end.
Proof. reflexivity. Qed.

Lemma token_params (pageToken : option json) :
  defined_params [(js "pageToken", pageToken)] = []
  \/ exists v, defined_params [(js "pageToken", pageToken)] = [(js "pageToken", v)].
Proof.
  destruct pageToken as [[| | |[|c t] | |]|]; cbn [defined_params]; eauto.
Qed.

Lemma withSearchParams_token (endpoint u : jsstring) (pageToken : option json) :
  withSearchParams endpoint [(js "pageToken", pageToken)] = inr u ->
  u = endpoint
  \/ exists token,
       u = endpoint ++ query_separator endpoint ++ js "pageToken=" ++ token.
Proof.
  unfold withSearchParams.
  destruct (token_params pageToken) as [-> | [v ->]].
  - cbn [encode_pairs join]. intros [= <-]. now left.
  - cbn [encode_pairs]. rewrite encode_token_pair.
    destruct (stringify v) as [e | sv]; [discriminate|].
    destruct (encodeURIComponent sv) as [ev|]; [|discriminate].
    cbn [join]. intros [= <-]. right. now exists ev.
Qed.

Lemma withSearchParams_key (endpoint u key : jsstring) (pageToken : option json) :
  key <> [] ->
  withSearchParams endpoint [(js "key", Some (JStr key)); (js "pageToken", pageToken)]
  = inr u ->
  exists encoded,
    encodeURIComponent key = Some encoded
    /\ (u = endpoint ++ query_separator endpoint ++ js "key=" ++ encoded
        \/ exists token,
             u = endpoint ++ query_separator endpoint ++ js "key=" ++ encoded
                 ++ js "&pageToken=" ++ token).
Proof.
  intros Hkey. unfold withSearchParams.
  assert (defined_params [(js "key", Some (JStr key)); (js "pageToken", pageToken)]
          = (js "key", JStr key) :: defined_params [(js "pageToken", pageToken)])
    as ->.
  { destruct key; [congruence | reflexivity]. }
  cbn [encode_pairs]. rewrite encode_key_pair.
  destruct (encodeURIComponent key) as [ek|]; [|discriminate].
  destruct (token_params pageToken) as [-> | [v ->]].
  - cbn [encode_pairs join]. intros [= <-]. exists ek. split; [reflexivity | now left].
  - cbn [encode_pairs]. rewrite encode_token_pair.
    destruct (stringify v) as [e | sv]; [discriminate|].
    destruct (encodeURIComponent sv) as [ev|]; [|discriminate].
    cbn [join]. intros [= <-]. exists ek. split; [reflexivity|].
    right. exists ev. unfold query_separator.
    change (js "key=" ++ ek ++ js "&pageToken=" ++ ev)
      with ((js "key=" ++ ek) ++ js "&" ++ js "pageToken=" ++ ev).
    reflexivity.
Qed.

(** A request of an attempt presents the key the way of its mode. *)
Lemma page_request_presents (auth : AuthMode) (endpoint : jsstring)
      (pageToken : option json) (q : Request) :
  has_key config = true ->
  page_request config auth endpoint pageToken = inr q ->
  presents_key config auth endpoint q.
Proof.
  unfold has_key, page_request, bind_result, presents_key.
  destruct (apiKey config) as [[|c key]|]; try discriminate. intros _.
  destruct auth.
  - cbn [option_map text_of].
    destruct (withSearchParams endpoint _) as [e | u] eqn:Hu; [discriminate|].
    intros [= <-]. cbn [headers url]. split; [reflexivity|].
    apply withSearchParams_key in Hu; [exact Hu | discriminate].
  - destruct (withSearchParams endpoint _) as [e | u] eqn:Hu; [discriminate|].
    intros [= <-]. cbn [headers url text_of]. split; [reflexivity|].
    now apply withSearchParams_token in Hu.
Qed.

Lemma fetch_page_presents (auth : AuthMode) (endpoint : jsstring)
      (pageToken : option json) (s s' : log)
      (r : outcome (list jsstring * option json)) :
  has_key config = true ->
  fetch_page W config auth endpoint pageToken s = (r, s') ->
  exists reqs,
    s' = s ++ List.map EvFetch reqs
    /\ Forall (presents_key config auth endpoint) reqs.
Proof.
  intros Hkey. unfold fetch_page. unfold_monad.
  destruct (page_request config auth endpoint pageToken) as [e | request] eqn:Hq.
  { intros [= <- <-]. exists []. cbn [List.map]. now rewrite app_nil_r. }
  apply page_request_presents in Hq; [|exact Hkey].
  assert (exists reqs,
             s ++ [EvFetch request] = s ++ List.map EvFetch reqs
             /\ Forall (presents_key config auth endpoint) reqs) as Hlog.
  { exists [request]. split; [reflexivity | now repeat constructor]. }
  destruct (fetch_reply W s request) as [e | response].
  { intros [= <- <-]. exact Hlog. }
  destruct (negb (ok response)).
  - destruct (throw_list_failure_throws (list jsstring * option json) response
                (s ++ [EvFetch request])) as (e & He).
    unfold throw_list_failure in *. unfold_monad. rewrite He.
    intros [= <- <-]. exact Hlog.
  - destruct (json_body response) as [e | data].
    { intros [= <- <-]. exact Hlog. }
    destruct (page_models data) as [e | pageModels];
      intros [= <- <-]; exact Hlog.
Qed.

Lemma paginate_presents (auth : AuthMode) (endpoint : jsstring) (fuel : nat) :
  forall (models : list jsstring) (pageToken : option json) (guard : nat)
         (s s' : log) (r : outcome (list jsstring)),
    has_key config = true ->
    paginate W config auth endpoint fuel models pageToken guard s = (r, s') ->
    exists reqs,
      s' = s ++ List.map EvFetch reqs
      /\ Forall (presents_key config auth endpoint) reqs.
Proof.
  induction fuel as [|fuel IH]; intros models pageToken guard s s' r Hkey.
  { cbn [paginate]. intros [= <- <-]. exists []. cbn [List.map].
    now rewrite app_nil_r. }
  rewrite paginate_step.
  destruct ((20 <? S guard) || (500 <? List.length models)).
  { intros [= <- <-]. exists []. cbn [List.map]. now rewrite app_nil_r. }
  destruct (fetch_page W config auth endpoint pageToken s)
    as [[[pageModels next] | e |] s1] eqn:Hpage;
    apply fetch_page_presents in Hpage as (reqs & -> & Hall); try exact Hkey.
  - destruct (truthy_opt next).
    + intros Hrec. apply IH in Hrec as (reqs' & -> & Hall'); [|exact Hkey].
      exists (reqs ++ reqs').
      split; [now rewrite map_app, app_assoc | now apply Forall_app].
    + intros [= <- <-]. now exists reqs.
  - intros [= <- <-]. now exists reqs.
  - intros [= <- <-]. now exists reqs.
Qed.

Lemma attempt_presents (auth : AuthMode) (endpoint : jsstring) (s s' : log)
      (r : outcome (list jsstring)) :
  has_key config = true ->
  attempt W config auth endpoint s = (r, s') ->
  exists reqs,
    s' = s ++ List.map EvFetch reqs
    /\ Forall (presents_key config auth endpoint) reqs.
Proof.
  intros Hkey H. apply attempt_inv in H as (r0 & Hp & _).
  now apply paginate_presents in Hp.
Qed.

(** C1: on the Gemini path the candidates are every endpoint in order,
    each tried first with the API key as a query parameter ([key=...]
    in the URL, no header) and second with the API key as a request
    header ([x-goog-api-key], the key absent from the URL): every
    request of an attempt presents the key the way of its mode.  When
    the attempts before a candidate have all failed and the attempt on
    it succeeds, [listModels] returns the deduplicated, sorted list of
    that attempt and leaves the log as that attempt left it: no later
    authentication mode or endpoint is tried. *)
Theorem first_success_returns
        (before after : list (jsstring * AuthMode))
        (endpoint : jsstring) (auth : AuthMode) (s s1 s2 : log)
        (ms : list jsstring)
        (Hkey : has_key config = true)
        (Hprovider : provider config = Gemini)
        (Hcandidates :
           flat_map (fun ep => [(ep, QueryKey); (ep, HeaderKey)]) (endpoints config)
           = before ++ (endpoint, auth) :: after)
        (Hbefore : all_fail W config before s s1)
        (Hattempt : attempt W config auth endpoint s1 = (Ok ms, s2)) :
  listModels W config s = (Ok ms, s2)
  /\ (exists raw,
         paginate W config auth endpoint 21 [] None 0 s1 = (Ok raw, s2)
         /\ ms = dedupeAndSort raw)
  /\ (forall mode ep t t' r,
         attempt W config mode ep t = (r, t') ->
         exists reqs,
           t' = t ++ List.map EvFetch reqs
           /\ Forall (presents_key config mode ep) reqs).
Proof.
  split; [|split; [now apply attempt_ok|]].
  - rewrite listModels_gemini by assumption.
    now apply discover_first_success with before after endpoint auth s1.
  - intros mode ep t t' r Hrun. now apply attempt_presents in Hrun.
Qed.

(** C5, amended: every name returned by Gemini discovery is a name the
    world served with one leading [models/] removed, if it had one, and
    then trimmed; no returned name begins with [models/] provided the
    served names carry [models/] nowhere but at their start. *)
Theorem discovered_names_stripped (s s' : log) (ms : list jsstring)
        (Hprovider : provider config = Gemini)
        (Hrun : listModels W config s = (Ok ms, s')) :
  (forall x, In x ms ->
             exists n, served W n /\ x = trim (stripGeminiModelPrefix n))
  /\ (forall r, stripGeminiModelPrefix (models_prefix ++ r) = r)
  /\ (forall n, starts_with models_prefix n = false -> stripGeminiModelPrefix n = n)
  /\ ((forall n, served W n -> occurs_inside models_prefix n = false) ->
      forall x, In x ms -> starts_with models_prefix x = false).
Proof.
  assert (forall x, In x ms ->
                    exists n, served W n /\ x = trim (stripGeminiModelPrefix n))
    as Hnames.
  { unfold listModels in Hrun. rewrite Hprovider in Hrun.
    destruct (negb (has_key config)); [discriminate|].
    apply discover_ok in Hrun as (endpoint & auth & s1 & _ & Hatt).
    apply attempt_ok in Hatt as (raw & Hp & ->).
    intros x Hx. apply dedupeAndSort_In in Hx as (_ & r & Hr & ->).
    destruct (paginate_served _ _ _ _ _ _ _ Hp r Hr) as [[] | (_ & n & Hn & ->)].
    exists n. split; [exact Hn | reflexivity]. }
  split; [exact Hnames|].
  split; [exact stripGeminiModelPrefix_prefixed|].
  split; [exact stripGeminiModelPrefix_other|].
  intros Hclean x Hx.
  destruct (Hnames x Hx) as (n & Hn & ->).
  apply stripped_clean. now apply Hclean.
Qed.

End Discovery.

(* ================================================================= *)
(** ** The public operations *)

Section Operations.
Context {E : Engine} (W : World).
Variable config : AIConfig.

Lemma has_key_false :
  apiKey config = None \/ apiKey config = Some [] -> has_key config = false.
Proof. unfold has_key. now intros [-> | ->]. Qed.

(** C6: without an API key (absent or empty) each of the five public
    operations throws its configure-the-key message at once and leaves
    the log as it found it: nothing was sent. *)
Theorem missing_key_fails_first
        (prompt content : jsstring) (history : list ChatTurn)
        (size : option jsstring) (s : log)
        (Hkey : apiKey config = None \/ apiKey config = Some []) :
  generateChatResponse W config prompt history s
  = (Throw (Error (js "请先在设置中配置 Chat API Key")), s)
  /\ generateFormattedContent W config content s
     = (Throw (Error (js "请先配置 Chat API Key")), s)
  /\ generateImage W config prompt size s
     = (Throw (Error (js "请先在设置中配置 绘图 API Key")), s)
  /\ generateThemeCSS W config prompt s
     = (Throw (Error (js "请先配置 Chat API Key 以生成主题")), s)
  /\ listModels W config s
     = (Throw (Error (js "请先在设置中配置 API Key")), s).
Proof.
  apply has_key_false in Hkey.
  unfold generateChatResponse, generateFormattedContent, generateImage,
    generateThemeCSS, listModels.
  rewrite Hkey. repeat split.
Qed.

Lemma throw_openai_failure_log (A : Type) (response : Response)
      (fallback : jsstring) (s : log) :
  snd (@throw_openai_failure E A response fallback s) = s.
Proof.
  unfold throw_openai_failure. unfold_monad.
  destruct (get (Some (error_body response)) (js "error")) as [e | inner];
    [reflexivity|].
  now destruct (stringify _).
Qed.

(** The request of [callOpenAIImage], as the code builds it. *)
Lemma callOpenAIImage_request (prompt size : jsstring) (s : log) :
  exists req,
    snd (callOpenAIImage W config prompt size s) = s ++ [EvFetch req]
    /\ requested_size (EvFetch req) = Some (sizeStr size)
    /\ callOpenAIImage W config prompt size s
       = match fetch_reply W s req with
         | inl e => (Throw e, s ++ [EvFetch req])
         | inr response =>
           if negb (ok response) then
             throw_openai_failure response
               (js "OpenAI Image Request Failed: " ++ decimal (status response))
               (s ++ [EvFetch req])
           else
             match json_body response with
             | inl e => (Throw e, s ++ [EvFetch req])
             | inr data =>
               match get (Some data) (js "data") with
               | inl e => (Throw e, s ++ [EvFetch req])
               | inr items =>
                 match first items with
                 | inl e => (Throw e, s ++ [EvFetch req])
                 | inr entry =>
                   match truthy_value (get_opt entry (js "b64_json")) with
                   | Some b64 =>
                     match stringify b64 with
                     | inl e => (Throw e, s ++ [EvFetch req])
                     | inr payload =>
                       (Ok (JStr (js "data:image/png;base64," ++ payload)),
                        s ++ [EvFetch req])
                     end
                   | None =>
                     (Ok (or_else (get_opt entry (js "url")) (JStr [])),
                      s ++ [EvFetch req])
                   end
                 end
               end
             end
         end.
Proof.
  unfold callOpenAIImage. unfold_monad.
  match goal with
  | |- context [fetch_reply W s ?r] => exists r
  end.
  split; [|split; [reflexivity|]].
  - destruct (fetch_reply W s _) as [e | response]; [reflexivity|].
    destruct (negb (ok response)); [apply throw_openai_failure_log|].
    destruct (json_body response) as [e | data]; [reflexivity|].
    destruct (get (Some data) (js "data")) as [e | items]; [reflexivity|].
    destruct (first items) as [e | entry]; [reflexivity|].
    destruct (truthy_value _); [|reflexivity].
    now destruct (stringify _).
  - destruct (fetch_reply W s _) as [e | response]; [reflexivity|].
    destruct (negb (ok response)); [reflexivity|].
    destruct (json_body response) as [e | data]; [reflexivity|].
    destruct (get (Some data) (js "data")) as [e | items]; [reflexivity|].
    destruct (first items) as [e | entry]; [reflexivity|].
    destruct (truthy_value _); [|reflexivity].
    now destruct (stringify _).
Qed.

Lemma generateImage_openai (prompt : jsstring) (size : option jsstring) (s : log) :
  provider config = OpenAI -> has_key config = true ->
  generateImage W config prompt size s
  = callOpenAIImage W config prompt
      (match size with Some x => x | None => js "1024x1024" end) s.
Proof. unfold generateImage. now intros -> ->. Qed.

(** What lines 48-52 send: ['1024x1024'] when the size is omitted or
    is not ['16:9'] and for every size containing ['1024'], and
    ['1792x1024'] when the size is exactly ['16:9']. *)
Theorem openai_image_size (prompt : jsstring) (size : option jsstring) (s : log)
        (Hprovider : provider config = OpenAI)
        (Hkey : has_key config = true) :
  exists req sz,
    snd (generateImage W config prompt size s) = s ++ [EvFetch req]
    /\ requested_size (EvFetch req) = Some sz
    /\ (size = None -> sz = js "1024x1024")
    /\ (forall x, size = Some x -> includes (js "1024") x = true ->
                  sz = js "1024x1024")
    /\ (size = Some (js "16:9") -> sz = js "1792x1024")
    /\ (forall x, size = Some x -> x <> js "16:9" -> sz = js "1024x1024").
Proof.
  rewrite generateImage_openai by assumption.
  destruct (callOpenAIImage_request prompt
              (match size with Some x => x | None => js "1024x1024" end) s)
    as (req & Hlog & Hsize & _).
  exists req, (sizeStr (match size with Some x => x | None => js "1024x1024" end)).
  split; [exact Hlog|]. split; [exact Hsize|].
  repeat split.
  - now intros ->.
  - intros x ->. apply sizeStr_cases.
  - now intros ->.
  - intros x ->. apply sizeStr_cases.
Qed.

Lemma truthy_value_none (v : option json) :
  truthy_opt v = false -> truthy_value v = None.
Proof. destruct v as [x|]; simpl; [now intros -> | reflexivity]. Qed.

Lemma or_else_falsy (v : option json) (d : json) :
  truthy_opt v = false -> or_else v d = d.
Proof. destruct v as [x|]; simpl; [now intros -> | reflexivity]. Qed.

(** C8: when the OpenAI image endpoint answers with success and the
    first entry of [data] carries neither a [b64_json] payload nor a
    [url], [generateImage] returns the empty string; it does not
    throw. *)
Theorem openai_image_without_payload
        (prompt : jsstring) (size : option jsstring) (s : log)
        (req : Request) (response : Response) (data : json)
        (items entry : option json)
        (Hprovider : provider config = OpenAI)
        (Hkey : has_key config = true)
        (Hsent : snd (generateImage W config prompt size s) = s ++ [EvFetch req])
        (Hreply : fetch_reply W s req = inr response)
        (Hok : ok response = true)
        (Hbody : json_body response = inr data)
        (Hdata : get (Some data) (js "data") = inr items)
        (Hentry : first items = inr entry)
        (Hb64 : truthy_opt (get_opt entry (js "b64_json")) = false)
        (Hurl : truthy_opt (get_opt entry (js "url")) = false) :
  generateImage W config prompt size s = (Ok (JStr []), s ++ [EvFetch req]).
Proof.
  rewrite generateImage_openai in * by assumption.
  destruct (callOpenAIImage_request prompt
              (match size with Some x => x | None => js "1024x1024" end) s)
    as (req0 & Hlog & _ & Hrun).
  rewrite Hlog in Hsent. apply app_inv_head in Hsent. injection Hsent as ->.
  rewrite Hrun, Hreply, Hok. cbn [negb].
  rewrite Hbody, Hdata, Hentry, (truthy_value_none _ Hb64).
  now rewrite (or_else_falsy _ _ Hurl).
Qed.

Lemma str_or_empty (v : option jsstring) (d : jsstring) :
  v = None \/ v = Some [] -> str_or v d = d.
Proof. now intros [-> | ->]. Qed.

(** C9: on the Gemini path of [generateFormattedContent], a response
    whose [text] is absent or empty makes the operation return the
    caller's content unchanged. *)
Theorem formatted_content_falls_back
        (content : jsstring) (s : log)
        (ai : ClientOptions) (params : GenerateContentParams)
        (response : GenerateContentResponse)
        (Hprovider : provider config = Gemini)
        (Hkey : has_key config = true)
        (Hsent : snd (generateFormattedContent W config content s)
                 = s ++ [EvGenerateContent ai params])
        (Hreply : generateContent_reply W s ai params = inr response)
        (Htext : text response = None \/ text response = Some []) :
  generateFormattedContent W config content s
  = (Ok (JStr content), s ++ [EvGenerateContent ai params]).
Proof.
  unfold generateFormattedContent in *. rewrite Hkey, Hprovider in *.
  cbn [negb] in *. unfold_monad.
  match type of Hsent with
  | context [generateContent_reply W s ?a ?p] =>
    destruct (generateContent_reply W s a p) as [e | response0] eqn:Hr
  end.
  - cbn [snd] in Hsent. rewrite <- app_assoc in Hsent.
    apply app_inv_head in Hsent. discriminate.
  - cbn [snd] in Hsent. apply app_inv_head in Hsent.
    injection Hsent as <- <-.
    rewrite Hreply in Hr. injection Hr as <-.
    now rewrite (str_or_empty _ Htext).
Qed.




End Operations.

(* ================================================================= *)
(** ** The reference host: its comparator is consistent *)

Section ReferenceHost.

Lemma code_unit_compare_total (a b : jsstring) :
  (Sample.code_unit_compare a b <= 0)%Z \/ (Sample.code_unit_compare b a <= 0)%Z.
Proof.
  revert b. induction a as [|x a IH]; intros [|y b]; simpl; try lia.
  destruct (x <? y)%N eqn:Hxy; [lia|].
  destruct (y <? x)%N eqn:Hyx; [lia|].
  apply IH.
Qed.

Lemma code_unit_compare_trans (a b c : jsstring) :
  (Sample.code_unit_compare a b <= 0)%Z ->
  (Sample.code_unit_compare b c <= 0)%Z ->
  (Sample.code_unit_compare a c <= 0)%Z.
Proof.
  revert b c. induction a as [|x a IH]; intros [|y b] [|z c]; simpl; try lia.
  destruct (x <? y)%N eqn:Hxy, (y <? x)%N eqn:Hyx,
           (y <? z)%N eqn:Hyz, (z <? y)%N eqn:Hzy,
           (x <? z)%N eqn:Hxz, (z <? x)%N eqn:Hzx;
    try lia;
    try (apply N.ltb_lt in Hxy); try (apply N.ltb_ge in Hxy);
    try (apply N.ltb_lt in Hyx); try (apply N.ltb_ge in Hyx);
    try (apply N.ltb_lt in Hyz); try (apply N.ltb_ge in Hyz);
    try (apply N.ltb_lt in Hzy); try (apply N.ltb_ge in Hzy);
    try (apply N.ltb_lt in Hxz); try (apply N.ltb_ge in Hxz);
    try (apply N.ltb_lt in Hzx); try (apply N.ltb_ge in Hzx);
    try lia.
  apply IH.
Qed.

End ReferenceHost.

(* ================================================================= *)
(** ** The embedding on concrete inputs *)

Section Scenarios.
Import Sample.
#[local] Existing Instance engine.

Example literal_ascii : js "models/" = [109; 111; 100; 101; 108; 115; 47]%N.
Proof. reflexivity. Qed.

Example literal_cjk : js "请先" = [35831; 20808]%N.
Proof. reflexivity. Qed.

Example encode_reserved :
  encodeURIComponent (js "a b/é") = Some (js "a%20b%2F%C3%A9").
Proof. reflexivity. Qed.

Example encode_lone_surrogate : encodeURIComponent [55357%N] = None.
Proof. reflexivity. Qed.

Example trim_both_ends : trim (js "  a b ") = js "a b".
Proof. reflexivity. Qed.

Example base_url_custom :
  normalizeBaseUrl (Some (js "https://proxy.example/v1/")) = js "https://proxy.example/v1".
Proof. reflexivity. Qed.

Example base_url_absent : normalizeBaseUrl None = js "https://api.openai.com/v1".
Proof. reflexivity. Qed.

Example custom_base_blank : customBase (Some (js "   ")) = [].
Proof. reflexivity. Qed.

Example endpoints_custom :
  endpoints {| provider := Gemini; apiKey := Some (js "K");
               baseUrl := Some (js " https://proxy.example/api/ ");
               chatModel := None; imageModel := None; temperature := None |}
  = [js "https://proxy.example/api/models";
     js "https://proxy.example/api/v1beta/models"].
Proof. reflexivity. Qed.

Example endpoints_v1beta :
  endpoints {| provider := Gemini; apiKey := Some (js "K");
               baseUrl := Some (js "https://proxy.example/v1beta");
               chatModel := None; imageModel := None; temperature := None |}
  = [js "https://proxy.example/v1beta/models"].
Proof. reflexivity. Qed.

Example search_params_append :
  withSearchParams (js "https://h/models?foo=1")
                   [(js "key", Some (JStr (js "K"))); (js "pageToken", None);
                    (js "x", Some (JStr []))]
  = inr (js "https://h/models?foo=1&key=K").
Proof. reflexivity. Qed.

Example network_error_hint :
  formatNetworkError {| exn_name := js "TypeError"; exn_message := js "failed to FETCH" |}
  = js "failed to FETCH（可能是浏览器跨域 CORS 或网络问题）".
Proof. reflexivity. Qed.

Example fences_stripped : strip_fences fenced_css = js "body{}".
Proof. reflexivity. Qed.

(** Section 8 of the specification: OpenAI discovery of
    [{data: [{id: 'gpt-4'}, {id: 'gpt-4'}, {id: 'gpt-3.5'}]}]. *)
Example openai_discovery :
  fst (listModels openai_models_world openai []) = Ok [js "gpt-3.5"; js "gpt-4"].
Proof. reflexivity. Qed.

(** Section 8 of the specification: query-parameter authentication is
    refused, header authentication on the same endpoint succeeds; two
    requests are sent, both to the default endpoint. *)
Example gemini_header_fallback :
  listModels header_only_world gemini []
  = (Ok [js "gemini-pro"],
     [EvFetch {| url := default_endpoint ++ js "?key=K"; method := js "GET";
                 headers := []; body := None |};
      EvFetch {| url := default_endpoint; method := js "GET";
                 headers := [(js "x-goog-api-key", js "K")]; body := None |}]).
Proof. reflexivity. Qed.

End Scenarios.

(* ================================================================= *)
(** ** The theorems at concrete inputs, and inputs on which the
       unrestricted properties fail *)

Section Instances.
Import Sample.
#[local] Existing Instance engine.

(** C1 at the scenario of section 8: the query-parameter attempt on the
    default endpoint fails, the header attempt succeeds; the first
    request has the key in its URL, the second in its header. *)
Lemma first_success_returns_witness :
  listModels header_only_world gemini []
  = (Ok [js "gemini-pro"],
     [EvFetch {| url := default_endpoint ++ js "?key=K"; method := js "GET";
                 headers := []; body := None |};
      EvFetch {| url := default_endpoint; method := js "GET";
                 headers := [(js "x-goog-api-key", js "K")]; body := None |}])
  /\ (exists reqs,
         snd (attempt header_only_world gemini QueryKey default_endpoint [])
         = [] ++ List.map EvFetch reqs
         /\ Forall (presents_key gemini QueryKey default_endpoint) reqs)
  /\ (exists reqs,
         snd (attempt header_only_world gemini HeaderKey default_endpoint [])
         = [] ++ List.map EvFetch reqs
         /\ Forall (presents_key gemini HeaderKey default_endpoint) reqs).
Proof.
  pose (r1 := attempt header_only_world gemini QueryKey default_endpoint []).
  pose (e1 := match fst r1 with Throw e => e | _ => offline end).
  pose (r2 := attempt header_only_world gemini HeaderKey default_endpoint (snd r1)).
  destruct (@first_success_returns engine header_only_world gemini
              [(default_endpoint, QueryKey)] [] default_endpoint HeaderKey
              [] (snd r1) (snd r2) [js "gemini-pro"]) as (H & _ & Hreqs).
  - reflexivity.
  - reflexivity.
  - reflexivity.
  - apply all_fail_cons with (e := e1) (s1 := snd r1); [|apply all_fail_nil].
    reflexivity.
  - reflexivity.
  - split; [rewrite H; reflexivity|].
    split.
    + apply (Hreqs QueryKey default_endpoint [] _ _ (surjective_pairing _)).
    + apply (Hreqs HeaderKey default_endpoint [] _ _ (surjective_pairing _)).
Defined.

(** C2 as stated fails: a single page of 501 names is accumulated, and
    returned, whole. *)
Lemma accumulates_beyond_500 :
  fst (paginate (page_world (models_page many_names None)) gemini QueryKey
                default_endpoint 21 [] None 0 [])
  = Ok many_names
  /\ List.length many_names = 501
  /\ fst (attempt (page_world (models_page many_names None)) gemini QueryKey
                  default_endpoint [])
     = Ok many_names.
Proof. vm_compute. repeat split. Qed.

(** C2, amended, on pages that never end: the attempt stops after 20
    fetches and returns what the 20 pages hold. *)
Lemma pagination_bounds_witness :
  attempt endless_world gemini QueryKey default_endpoint []
  = (Ok [js "a"], snd (attempt endless_world gemini QueryKey default_endpoint []))
  /\ List.length (snd (attempt endless_world gemini QueryKey default_endpoint [])) = 20
  /\ (exists reqs,
         snd (attempt endless_world gemini QueryKey default_endpoint [])
         = [] ++ List.map EvFetch reqs /\ List.length reqs <= 20)
  /\ exists pages reqs,
       pages_fetched endless_world gemini QueryKey default_endpoint None [] pages
                     (snd (attempt endless_world gemini QueryKey default_endpoint []))
       /\ snd (attempt endless_world gemini QueryKey default_endpoint [])
          = [] ++ List.map EvFetch reqs
       /\ List.length reqs = List.length pages
       /\ List.length pages <= 20
       /\ List.length (List.concat (removelast pages)) <= 500
       /\ paginate endless_world gemini QueryKey default_endpoint 21 [] None 0 []
          = (Ok (List.concat pages),
             snd (attempt endless_world gemini QueryKey default_endpoint []))
       /\ [js "a"] = dedupeAndSort (List.concat pages).
Proof.
  split; [reflexivity|].
  split; [reflexivity|].
  destruct (@pagination_bounds engine endless_world gemini QueryKey default_endpoint
              [] _ _ (surjective_pairing _)) as (Hlog & _ & Hpages & _).
  split; [exact Hlog|].
  apply Hpages. reflexivity.
Defined.

(** C4 fails on the code: a size that contains ['16:9'] without
    being equal to it is sent as the square default, where the Gemini
    path of the same operation (line 321) matches it as a substring. *)
Lemma wide_size_not_requested :
  includes (js "16:9") (js "wide 16:9") = true
  /\ List.map requested_size
       (snd (generateImage empty_entry_world openai (js "cat")
                           (Some (js "wide 16:9")) []))
     = [Some (js "1024x1024")]
  /\ List.map requested_size
       (snd (generateImage empty_entry_world openai (js "cat")
                           (Some (js "wide 16:9")) []))
     <> [Some (js "1792x1024")].
Proof. vm_compute. repeat split. discriminate. Qed.

(** The size of the request at ['16:9']. *)
Lemma openai_image_size_witness :
  exists req sz,
    snd (generateImage empty_entry_world openai (js "cat") (Some (js "16:9")) [])
    = [] ++ [EvFetch req]
    /\ requested_size (EvFetch req) = Some sz
    /\ sz = js "1792x1024".
Proof.
  destruct (@openai_image_size engine empty_entry_world openai (js "cat")
              (Some (js "16:9")) [] eq_refl eq_refl)
    as (req & sz & Hlog & Hsize & _ & _ & Hwide & _).
  exists req, sz. repeat split; [exact Hlog | exact Hsize | now apply Hwide].
Defined.

(** C5 as stated fails: a served name that carries the prefix twice
    comes back with one prefix left. *)
Lemma doubled_prefix_survives :
  fst (listModels (page_world (models_page [js "models/models/x"] None)) gemini [])
  = Ok [js "models/x"]
  /\ starts_with models_prefix (js "models/x") = true.
Proof. vm_compute. split; reflexivity. Qed.

Lemma header_only_world_served (n : jsstring) :
  served header_only_world n -> n = js "models/gemini-pro".
Proof.
  intros (s & request & response & data & items & m & Hr & Hb & Hi & Hm & Hn).
  cbn [header_only_world fetch_world fetch_reply] in Hr.
  destruct (headers request); injection Hr as <-;
    cbn [json_body success] in Hb; injection Hb as <-;
    cbn in Hi; [discriminate|].
  injection Hi as <-. destruct Hm as [<- | []].
  cbn in Hn. now injection Hn as <-.
Qed.

(** C5, amended, on a world whose only name is [models/gemini-pro]. *)
Lemma discovered_names_stripped_witness :
  fst (listModels header_only_world gemini []) = Ok [js "gemini-pro"]
  /\ Forall (fun x => starts_with models_prefix x = false) [js "gemini-pro"].
Proof.
  split; [reflexivity|].
  apply Forall_forall.
  apply (@discovered_names_stripped engine header_only_world gemini [] _ _
           eq_refl (surjective_pairing _)).
  intros n Hn. apply header_only_world_served in Hn. now subst n.
Defined.

(** C6 on a configuration whose key is the empty string. *)
Lemma missing_key_fails_first_witness :
  generateChatResponse header_only_world no_key (js "hi") [] []
  = (Throw (Error (js "请先在设置中配置 Chat API Key")), [])
  /\ generateFormattedContent header_only_world no_key (js "text") []
     = (Throw (Error (js "请先配置 Chat API Key")), [])
  /\ generateImage header_only_world no_key (js "hi") None []
     = (Throw (Error (js "请先在设置中配置 绘图 API Key")), [])
  /\ generateThemeCSS header_only_world no_key (js "hi") []
     = (Throw (Error (js "请先配置 Chat API Key 以生成主题")), [])
  /\ listModels header_only_world no_key []
     = (Throw (Error (js "请先在设置中配置 API Key")), []).
Proof.
  apply (@missing_key_fails_first engine header_only_world no_key
           (js "hi") (js "text") [] None []).
  right. reflexivity.
Defined.

(** C7 under the code-unit comparator. *)
Lemma dedupeAndSort_spec_witness :
  dedupeAndSort [js " b "; js "a"; js "b"; []; js "a "] = [js "a"; js "b"]
  /\ NoDup (dedupeAndSort [js " b "; js "a"; js "b"; []; js "a "])
  /\ StronglySorted locale_le (dedupeAndSort [js " b "; js "a"; js "b"; []; js "a "]).
Proof.
  split; [reflexivity|].
  apply (@dedupeAndSort_spec engine [js " b "; js "a"; js "b"; []; js "a "]
           code_unit_compare_total code_unit_compare_trans).
Defined.

(** C8 on an answer whose first entry is the empty object. *)
Lemma openai_image_without_payload_witness :
  fst (generateImage empty_entry_world openai (js "cat") None []) = Ok (JStr []).
Proof.
  let l := eval vm_compute in
             (snd (generateImage empty_entry_world openai (js "cat") None [])) in
  match l with
  | [EvFetch ?r] =>
    rewrite (@openai_image_without_payload engine empty_entry_world openai
               (js "cat") None [] r
               (success (JObj [(js "data", JArr [JObj []])]))
               (JObj [(js "data", JArr [JObj []])])
               (Some (JArr [JObj []])) (Some (JObj []))
               eq_refl eq_refl eq_refl eq_refl eq_refl eq_refl eq_refl eq_refl
               eq_refl eq_refl)
  end.
  reflexivity.
Defined.

(** C9 on a response without text. *)
Lemma formatted_content_falls_back_witness :
  fst (generateFormattedContent
         (content_world {| text := None; candidates := None |})
         gemini (js "hello") [])
  = Ok (JStr (js "hello")).
Proof.
  let l := eval vm_compute in
             (snd (generateFormattedContent
                     (content_world {| text := None; candidates := None |})
                     gemini (js "hello") [])) in
  match l with
  | [EvGenerateContent ?a ?p] =>
    rewrite (@formatted_content_falls_back engine
               (content_world {| text := None; candidates := None |})
               gemini (js "hello") [] a p
               {| text := None; candidates := None |}
               eq_refl eq_refl eq_refl eq_refl (or_introl eq_refl))
  end.
  reflexivity.
Defined.



End Instances.

(* ================================================================= *)
(** ** Trimming *)

Section Trimming.

Lemma trim_start_head (s r : jsstring) (c : code_unit) :
  trim_start s = c :: r -> is_space c = false.
Proof.
  induction s as [|a s IH]; simpl; [discriminate|].
  destruct (is_space a) eqn:Ha; [exact IH|].
  intros [= <- _]. exact Ha.
Qed.

Lemma trim_start_fixed (s : jsstring) (c : code_unit) :
  is_space c = false -> trim_start (c :: s) = c :: s.
Proof. simpl. now intros ->. Qed.

Lemma trim_start_idem (s : jsstring) : trim_start (trim_start s) = trim_start s.
Proof.
  destruct (trim_start s) as [|c r] eqn:H; [reflexivity|].
  apply trim_start_fixed. now apply trim_start_head in H.
Qed.

Lemma trim_end_snoc (y : jsstring) (c : code_unit) :
  trim_end (y ++ [c]) = if is_space c then trim_end y else y ++ [c].
Proof.
  unfold trim_end. rewrite rev_app_distr. cbn [rev app trim_start].
  destruct (is_space c); [reflexivity|].
  cbn [rev]. now rewrite rev_involutive.
Qed.

Lemma trim_end_idem (t : jsstring) : trim_end (trim_end t) = trim_end t.
Proof. unfold trim_end. now rewrite rev_involutive, trim_start_idem. Qed.

Lemma trim_end_length (t : jsstring) : List.length (trim_end t) <= List.length t.
Proof.
  destruct (trim_end_firstn t) as [j ->]. rewrite length_firstn. lia.
Qed.

Lemma trim_start_length (s : jsstring) : List.length (trim_start s) <= List.length s.
Proof.
  destruct (trim_start_skipn s) as [k ->]. rewrite length_skipn. lia.
Qed.

Lemma trim_length (s : jsstring) : List.length (trim s) <= List.length s.
Proof.
  unfold trim. pose proof (trim_end_length (trim_start s)).
  pose proof (trim_start_length s). lia.
Qed.

(** What [trim_end] keeps of a string that starts with a character
    other than a space still starts with it. *)
Lemma trim_end_head (c : code_unit) (r : jsstring) :
  is_space c = false -> exists r', trim_end (c :: r) = c :: r'.
Proof.
  intros Hc. revert c Hc.
  induction r as [|d r IH] using rev_ind; intros c Hc.
  - exists []. change [c] with ([] ++ [c]). rewrite trim_end_snoc, Hc. reflexivity.
  - change (c :: r ++ [d]) with ((c :: r) ++ [d]). rewrite trim_end_snoc.
    destruct (is_space d); [now apply IH | now exists (r ++ [d])].
Qed.

Lemma trim_head (s r : jsstring) (c : code_unit) :
  trim s = c :: r -> is_space c = false.
Proof.
  unfold trim. destruct (trim_start s) as [|a t] eqn:Hs; [discriminate|].
  pose proof (trim_start_head _ Hs) as Ha.
  destruct (@trim_end_head a t Ha) as [r' ->]. now intros [= <- _].
Qed.

Lemma trim_last (s y : jsstring) (c : code_unit) :
  trim s = y ++ [c] -> is_space c = false.
Proof.
  unfold trim, trim_end. intros H.
  apply (f_equal (@rev _)) in H. rewrite rev_involutive, rev_app_distr in H.
  cbn [rev app] in H. now apply trim_start_head in H.
Qed.

(** A string with no space at either end is left alone. *)
Lemma trim_fixed (y : jsstring) (a c : code_unit) (u : jsstring) :
  u = a :: y -> (exists z, u = z ++ [c]) ->
  is_space a = false -> is_space c = false -> trim u = u.
Proof.
  intros -> [z Hz] Ha Hc. unfold trim.
  rewrite trim_start_fixed by assumption.
  rewrite Hz, trim_end_snoc, Hc. reflexivity.
Qed.

Lemma trim_idem (s : jsstring) : trim (trim s) = trim s.
Proof.
  destruct (trim s) as [|a y] eqn:Ht; [reflexivity|].
  destruct (snoc_cases (a :: y)) as [H | (z & c & Hz)]; [discriminate|].
  apply trim_fixed with y a c; auto.
  - now exists z.
  - now apply trim_head in Ht.
  - rewrite Hz in Ht. now apply trim_last in Ht.
Qed.

Lemma trim_nil : trim [] = [].
Proof. reflexivity. Qed.

End Trimming.

(* ================================================================= *)
(** ** dedupeAndSort, applied to its own result *)

Section DedupeAgain.
Context {E : Engine}.

Lemma set_from_fixed (l : list jsstring) :
  forall seen, NoDup l -> (forall x, In x l -> ~ In x seen) -> set_from seen l = l.
Proof.
  induction l as [|x l IH]; intros seen Hnd Hseen; simpl; [reflexivity|].
  destruct (existsb (str_eqb x) seen) eqn:Hx.
  { apply existsb_str_eqb in Hx. elim (Hseen x); simpl; auto. }
  inversion Hnd as [|? ? Hnotin Hnd']; subst.
  f_equal. apply IH; [exact Hnd'|].
  intros y Hy [<- | Hin]; [contradiction|].
  apply (Hseen y); simpl; auto.
Qed.

Lemma sort_fixed (l : list jsstring) :
  StronglySorted locale_le l -> sort l = l.
Proof.
  induction 1 as [|x l Hs IH Hall]; simpl; [reflexivity|].
  rewrite IH. destruct l as [|y l]; [reflexivity|].
  simpl. inversion Hall as [|? ? Hxy _]; subst.
  unfold locale_le in Hxy. apply Z.leb_le in Hxy. now rewrite Hxy.
Qed.

Lemma filter_fixed {A : Type} (f : A -> bool) (l : list A) :
  (forall x, In x l -> f x = true) -> filter f l = l.
Proof.
  induction l as [|x l IH]; simpl; intros H; [reflexivity|].
  rewrite (H x) by auto. f_equal. apply IH. auto.
Qed.

Lemma map_fixed {A : Type} (f : A -> A) (l : list A) :
  (forall x, In x l -> f x = x) -> List.map f l = l.
Proof.
  induction l as [|x l IH]; simpl; intros H; [reflexivity|].
  rewrite (H x) by auto. f_equal. apply IH. auto.
Qed.

(** X1: a list that [dedupeAndSort] has produced is left unchanged by
    a second pass (the comparator being consistent). *)
Theorem dedupeAndSort_idempotent (models : list jsstring)
        (locale_le_total : forall a b, locale_le a b \/ locale_le b a)
        (locale_le_trans :
           forall a b c, locale_le a b -> locale_le b c -> locale_le a c) :
  dedupeAndSort (dedupeAndSort models) = dedupeAndSort models.
Proof.
  set (out := dedupeAndSort models).
  assert (forall x, In x out -> x <> [] /\ trim x = x) as Hout.
  { intros x Hx. apply dedupeAndSort_In in Hx as (Hne & m & _ & ->).
    split; [exact Hne | apply trim_idem]. }
  unfold dedupeAndSort at 1.
  rewrite map_fixed by (intros x Hx; now apply Hout).
  rewrite filter_fixed.
  2: { intros x Hx. unfold nonempty. apply negb_true_iff, str_eqb_neq.
       now apply Hout. }
  rewrite set_from_fixed;
    [|apply dedupeAndSort_NoDup | intros x _ []].
  apply sort_fixed. unfold out, dedupeAndSort. now apply sort_sorted.
Qed.

End DedupeAgain.

Lemma dedupeAndSort_idempotent_witness :
  @dedupeAndSort Sample.engine
    (@dedupeAndSort Sample.engine [js " b "; js "a"; js "b"; []; js "a "])
  = [js "a"; js "b"].
Proof.
  rewrite (@dedupeAndSort_idempotent Sample.engine
             [js " b "; js "a"; js "b"; []; js "a "]
             code_unit_compare_total code_unit_compare_trans).
  reflexivity.
Defined.

(* ================================================================= *)
(** ** The custom base of Gemini discovery *)

Section CustomBase.

Lemma customBase_value (x : jsstring) :
  customBase (Some x) = strip_trailing_slash (trim x).
Proof.
  unfold customBase. destruct x as [|c x]; [reflexivity|].
  destruct (str_eqb (trim (c :: x)) []) eqn:H; [|reflexivity].
  apply str_eqb_eq in H. now rewrite H.
Qed.

Lemma strip_trailing_slash_length (u : jsstring) :
  List.length (strip_trailing_slash u) <= List.length u.
Proof.
  destruct (snoc_cases u) as [-> | (y & c & ->)]; [reflexivity|].
  rewrite strip_trailing_slash_snoc, length_app.
  destruct (c =? slash)%N; [lia | rewrite length_app; lia].
Qed.

Lemma is_space_slash : is_space slash = false.
Proof. reflexivity. Qed.

(** The normalisation of line 142 (trim, strip one trailing slash,
    the empty string for a blank URL) applied twice gives the same as
    applied once exactly when the trimmed URL does not end in a slash
    preceded by another slash or by white space. *)
Lemma customBase_idempotent_iff (x : jsstring) :
  customBase (Some (customBase (Some x))) = customBase (Some x)
  <-> ~ exists y c, trim x = y ++ [c; slash] /\ (c = slash \/ is_space c = true).
Proof.
  rewrite !customBase_value.
  destruct (snoc_cases (trim x)) as [Ht | (u & d & Ht)].
  { rewrite Ht. split; [|reflexivity].
    intros _ (y & c & H & _). destruct y; discriminate. }
  rewrite Ht, strip_trailing_slash_snoc.
  destruct (N.eq_dec d slash) as [-> | Hd].
  - rewrite N.eqb_refl.
    destruct (snoc_cases u) as [-> | (y & c & ->)].
    { split; [|reflexivity].
      intros _ (y & c & H & _). destruct y as [|? [|? ?]]; discriminate. }
    assert (exists a r, y ++ [c] = a :: r /\ is_space a = false) as (a & r & Hy & Ha).
    { destruct y as [|a y'].
      - exists c, []. split; [reflexivity|].
        cbn [app] in Ht. now apply trim_head in Ht.
      - exists a, (y' ++ [c]). split; [reflexivity|].
        cbn [app] in Ht. now apply trim_head in Ht. }
    destruct (is_space c) eqn:Hc.
    + split.
      * intros H. apply (f_equal (@List.length _)) in H.
        pose proof (strip_trailing_slash_length (trim (y ++ [c]))) as H1.
        assert (List.length (trim (y ++ [c])) <= List.length y) as H2.
        { unfold trim. rewrite Hy, trim_start_fixed, <- Hy by assumption.
          rewrite trim_end_snoc, Hc. apply trim_end_length. }
        rewrite length_app in H. simpl in H. lia.
      * intros H. elim H. exists y, c. rewrite <- app_assoc. auto.
    + rewrite (@trim_fixed r a c (y ++ [c])); auto; [|now exists y].
      rewrite strip_trailing_slash_snoc.
      destruct (N.eq_dec c slash) as [-> | Hcs].
      * rewrite N.eqb_refl. split.
        -- intros H. now apply snoc_longer in H.
        -- intros H. elim H. exists y, slash. rewrite <- app_assoc. auto.
      * apply N.eqb_neq in Hcs. rewrite Hcs. split; [|reflexivity].
        intros _ (y' & c' & H & Hc').
        rewrite <- app_assoc in H. cbn [app] in H.
        replace (y ++ [c; slash]) with ((y ++ [c]) ++ [slash]) in H
          by now rewrite <- app_assoc.
        replace (y' ++ [c'; slash]) with ((y' ++ [c']) ++ [slash]) in H
          by now rewrite <- app_assoc.
        apply app_inj_tail in H as [H _]. apply app_inj_tail in H as [_ <-].
        apply N.eqb_neq in Hcs. destruct Hc' as [-> | Hc']; congruence.
  - assert (is_space d = false) as Hsd by now apply trim_last in Ht.
    apply N.eqb_neq in Hd. rewrite Hd.
    assert (trim (u ++ [d]) = u ++ [d]) as Hfix by (rewrite <- Ht; apply trim_idem).
    rewrite Hfix, strip_trailing_slash_snoc, Hd.
    split; [|reflexivity].
    intros _ (y & c & H & _).
    replace (y ++ [c; slash]) with ((y ++ [c]) ++ [slash]) in H
      by now rewrite <- app_assoc.
    apply app_inj_tail in H as [_ ->]. now rewrite N.eqb_refl in Hd.
Qed.

(** C3 as stated fails for both normalisations: each removes one
    slash per pass, so a URL ending in two slashes loses one more on
    the second pass, and so does, on line 142, a URL ending in white
    space and a slash, whose second pass trims what the first left. *)
Lemma base_url_not_idempotent :
  normalizeBaseUrl (Some (normalizeBaseUrl (Some (js "https://api.example.com/v1//"))))
  <> normalizeBaseUrl (Some (js "https://api.example.com/v1//"))
  /\ customBase (Some (customBase (Some (js "https://api.example.com/v1//"))))
     <> customBase (Some (js "https://api.example.com/v1//"))
  /\ customBase (Some (customBase (Some (js "https://api.example.com/v1 /"))))
     <> customBase (Some (js "https://api.example.com/v1 /")).
Proof. vm_compute. repeat split; discriminate. Qed.

(** C3, amended: neither base-URL normalisation is idempotent on every
    input.  The one of lines 15, 46 and 118 (strip one trailing slash,
    fall back to the provider default when the URL is absent or empty)
    applied twice gives the same as applied once exactly for the inputs
    that are not the single slash and do not end in two slashes.  The
    one of line 142 (trim, strip one trailing slash, fall back to the
    empty string when the URL is absent or blank) does so exactly for
    the inputs whose trimmed form does not end in a slash preceded by
    another slash or by white space.  Both are idempotent on the absent
    URL. *)
Theorem base_url_idempotent_iff (x : jsstring) :
  (normalizeBaseUrl (Some (normalizeBaseUrl (Some x))) = normalizeBaseUrl (Some x)
   <-> x <> [slash] /\ ends_with [slash; slash] x = false)
  /\ (customBase (Some (customBase (Some x))) = customBase (Some x)
      <-> ~ exists y c,
            trim x = y ++ [c; slash] /\ (c = slash \/ is_space c = true))
  /\ normalizeBaseUrl (Some (normalizeBaseUrl None)) = normalizeBaseUrl None
  /\ customBase (Some (customBase None)) = customBase None.
Proof.
  split; [apply normalizeBaseUrl_idempotent_iff|].
  split; [apply customBase_idempotent_iff|].
  split; reflexivity.
Qed.

End CustomBase.

(* ================================================================= *)
(** ** Code fences *)

Section Fences.

Variable b : code_unit.

Lemma remove_all_from_skip (p s : jsstring) :
  forall k, remove_all_from p k s = remove_all_from p 0 (skipn k s).
Proof.
  induction s as [|a s IH]; intros [|k]; try reflexivity.
  cbn [remove_all_from skipn]. apply IH.
Qed.

Lemma remove_all_triple (a : code_unit) (t : jsstring) :
  remove_all [b; b; b] (a :: t)
  = if starts_with [b; b; b] (a :: t) then remove_all [b; b; b] (skipn 2 t)
    else a :: remove_all [b; b; b] t.
Proof.
  unfold remove_all. cbn [remove_all_from].
  destruct (starts_with [b; b; b] (a :: t)); [|reflexivity].
  apply remove_all_from_skip.
Qed.

Lemma remove_all_triple_head (t : jsstring) :
  starts_with [b] (remove_all [b; b; b] t) = true -> starts_with [b] t = true.
Proof.
  destruct t as [|a t]; [discriminate|].
  rewrite remove_all_triple.
  destruct (starts_with [b; b; b] (a :: t)) eqn:H.
  - intros _. cbn [starts_with] in *. apply andb_prop in H as [-> _]. reflexivity.
  - cbn [starts_with]. now rewrite !andb_true_r.
Qed.

Lemma remove_all_triple_head2 (t : jsstring) :
  starts_with [b; b] (remove_all [b; b; b] t) = true -> starts_with [b; b] t = true.
Proof.
  destruct t as [|a t]; [discriminate|].
  rewrite remove_all_triple.
  destruct (starts_with [b; b; b] (a :: t)) eqn:H.
  - intros _. cbn [starts_with] in *.
    apply andb_prop in H as [-> H]. destruct t as [|a' t]; [discriminate|].
    apply andb_prop in H as [-> _]. reflexivity.
  - intros H2. change (starts_with [b; b] (a :: remove_all [b; b; b] t))
      with ((b =? a)%N && starts_with [b] (remove_all [b; b; b] t)) in H2.
    apply andb_prop in H2 as [Ha H2]. apply remove_all_triple_head in H2.
    change (starts_with [b; b] (a :: t)) with ((b =? a)%N && starts_with [b] t).
    now rewrite Ha, H2.
Qed.

(** Removing every match of a pattern made of one character three
    times leaves no match behind. *)
Lemma remove_all_triple_clean (n : nat) :
  forall s, List.length s <= n ->
            includes [b; b; b] (remove_all [b; b; b] s) = false.
Proof.
  induction n as [|n IH]; intros [|a t] Hlen; try reflexivity;
    [simpl in Hlen; lia|].
  simpl in Hlen. rewrite remove_all_triple.
  destruct (starts_with [b; b; b] (a :: t)) eqn:H.
  - apply IH. rewrite length_skipn. lia.
  - cbn [includes]. rewrite IH by lia. rewrite orb_false_r.
    destruct (starts_with [b; b; b] (a :: remove_all [b; b; b] t)) eqn:H2;
      [|reflexivity].
    change (starts_with [b; b; b] (a :: remove_all [b; b; b] t))
      with ((b =? a)%N && starts_with [b; b] (remove_all [b; b; b] t)) in H2.
    apply andb_prop in H2 as [Ha H2]. apply remove_all_triple_head2 in H2.
    change (starts_with [b; b; b] (a :: t))
      with ((b =? a)%N && starts_with [b; b] t) in H.
    rewrite Ha, H2 in H. discriminate.
Qed.

Lemma includes_of_skipn (p r : jsstring) (k : nat) :
  includes p (skipn k r) = true -> includes p r = true.
Proof.
  revert r. induction k as [|k IH]; intros r; [now simpl|].
  destruct r as [|a r]; [now simpl|].
  cbn [skipn]. intros H. cbn [includes]. rewrite (IH _ H). apply orb_true_r.
Qed.

Lemma includes_of_firstn (p r : jsstring) (j : nat) :
  includes p (firstn j r) = true -> includes p r = true.
Proof.
  revert j. induction r as [|a r IH]; intros j.
  - now rewrite firstn_nil.
  - destruct j as [|j].
    + cbn [firstn includes]. rewrite orb_false_r.
      destruct p; [reflexivity | discriminate].
    + cbn [firstn includes]. intros H. apply orb_prop in H as [H | H].
      * change (a :: firstn j r) with (firstn (S j) (a :: r)) in H.
        apply starts_with_firstn in H. now rewrite H.
      * rewrite (IH _ H). apply orb_true_r.
Qed.

Lemma includes_of_trim (p r : jsstring) :
  includes p (trim r) = true -> includes p r = true.
Proof.
  unfold trim. destruct (trim_start_skipn r) as [k ->].
  destruct (trim_end_firstn (skipn k r)) as [j ->].
  intros H. apply includes_of_firstn in H. now apply includes_of_skipn in H.
Qed.

End Fences.

Section ThemeCss.
Context {E : Engine} (W : World).

Lemma strip_fences_clean (css : jsstring) :
  includes (js "```") (strip_fences css) = false
  /\ trim (strip_fences css) = strip_fences css.
Proof.
  unfold strip_fences. split; [|apply trim_idem].
  destruct (includes (js "```") (trim _)) eqn:H; [|reflexivity].
  apply includes_of_trim in H.
  change (js "```") with [96; 96; 96]%N in H.
  now rewrite (@remove_all_triple_clean 96%N _ _ (le_n _)) in H.
Qed.

(** X2: whatever the provider answers, the CSS that [generateThemeCSS]
    returns contains no [```] fence and has no white space at either
    end. *)
Theorem theme_css_has_no_fence (config : AIConfig) (prompt css : jsstring)
        (s s' : log)
        (Hrun : generateThemeCSS W config prompt s = (Ok css, s')) :
  includes (js "```") css = false /\ trim css = css.
Proof.
  unfold generateThemeCSS in Hrun.
  destruct (negb (has_key config)); [discriminate|].
  destruct (provider config).
  - unfold_monad.
    match type of Hrun with
    | context [generateContent_reply W s ?a ?p] =>
      destruct (generateContent_reply W s a p)
    end; [discriminate|].
    injection Hrun as <- _. apply strip_fences_clean.
  - unfold bind at 1 in Hrun.
    destruct (callOpenAIChat W config _ _ s) as [[v | e |] s1]; try discriminate.
    unfold_monad. destruct (as_string v); [discriminate|].
    injection Hrun as <- _. apply strip_fences_clean.
Qed.

End ThemeCss.

Lemma theme_css_has_no_fence_witness :
  fst (@generateThemeCSS Sample.engine
         (Sample.content_world {| text := Some Sample.fenced_css; candidates := None |})
         Sample.gemini (js "dark") [])
  = Ok (js "body{}")
  /\ includes (js "```") (js "body{}") = false /\ trim (js "body{}") = js "body{}".
Proof.
  split; [reflexivity|].
  apply (@theme_css_has_no_fence Sample.engine
           (Sample.content_world {| text := Some Sample.fenced_css; candidates := None |})
           Sample.gemini (js "dark") (js "body{}") [] _ (surjective_pairing _)).
Defined.

(* ================================================================= *)
(** ** The candidate endpoints *)

Section Endpoints.
Context {E : Engine}.


Lemma endpoints_cases (config : AIConfig) :
  (customBase (baseUrl config) = [] /\ endpoints config = [default_endpoint])
  \/ (exists base,
         customBase (baseUrl config) = base /\ base <> [] /\
         ((v1beta_segment base = true /\ endpoints config = [base ++ js "/models"])
          \/ (v1beta_segment base = false
              /\ endpoints config
                 = [base ++ js "/models"; base ++ js "/v1beta/models"]))).
Proof.
  unfold endpoints. destruct (customBase (baseUrl config)) as [|c base];
    [now left | right].
  exists (c :: base). split; [reflexivity|]. split; [discriminate|].
  destruct (v1beta_segment (c :: base)); [left | right]; auto.
Qed.


End Endpoints.

(* ================================================================= *)
(** ** Discovery: failure and the requests it costs *)

Section DiscoveryRequests.
Context {E : Engine} (W : World).
Variable config : AIConfig.

Lemma page_request_get (auth : AuthMode) (endpoint : jsstring)
      (pageToken : option json) (request : Request) :
  page_request config auth endpoint pageToken = inr request ->
  method request = js "GET" /\ body request = None.
Proof.
  unfold page_request, bind_result.
  destruct auth; destruct (withSearchParams _ _); try discriminate;
    intros [= <-]; auto.
Qed.

Lemma fetch_page_requests (auth : AuthMode) (endpoint : jsstring)
      (pageToken : option json) (s s' : log)
      (r : outcome (list jsstring * option json)) :
  fetch_page W config auth endpoint pageToken s = (r, s') ->
  exists reqs,
    s' = s ++ List.map EvFetch reqs /\ List.length reqs <= 1
    /\ Forall (fun q => method q = js "GET" /\ body q = None) reqs.
Proof.
  unfold fetch_page. unfold_monad.
  destruct (page_request config auth endpoint pageToken) as [e | request] eqn:Hq.
  { intros [= <- <-]. exists []. simpl. rewrite app_nil_r. auto. }
  apply page_request_get in Hq.
  assert (exists reqs,
             s ++ [EvFetch request] = s ++ List.map EvFetch reqs
             /\ List.length reqs <= 1
             /\ Forall (fun q => method q = js "GET" /\ body q = None) reqs) as Hlog.
  { exists [request]. repeat split; auto. }
  destruct (fetch_reply W s request) as [e | response].
  { intros [= <- <-]. exact Hlog. }
  destruct (negb (ok response)).
  - destruct (throw_list_failure_throws (list jsstring * option json) response
                (s ++ [EvFetch request])) as (e & He).
    unfold throw_list_failure in *. unfold_monad. rewrite He.
    intros [= <- <-]. exact Hlog.
  - destruct (json_body response) as [e | data].
    { intros [= <- <-]. exact Hlog. }
    destruct (page_models data) as [e | pageModels];
      intros [= <- <-]; exact Hlog.
Qed.

Lemma paginate_requests (auth : AuthMode) (endpoint : jsstring) (left : nat) :
  forall (models : list jsstring) (pageToken : option json) (guard : nat)
         (s s' : log) (r : outcome (list jsstring)),
    guard + left = 20 ->
    paginate W config auth endpoint (S left) models pageToken guard s = (r, s') ->
    r <> OutOfFuel
    /\ exists reqs,
         s' = s ++ List.map EvFetch reqs /\ List.length reqs <= left
         /\ Forall (fun q => method q = js "GET" /\ body q = None) reqs.
Proof.
  induction left as [|left IH]; intros models pageToken guard s s' r Hg;
    rewrite paginate_step.
  - replace (20 <? S guard) with true by (symmetry; apply Nat.ltb_lt; lia).
    cbn [orb]. intros [= <- <-]. split; [discriminate|].
    exists []. simpl. rewrite app_nil_r. auto.
  - destruct ((20 <? S guard) || (500 <? List.length models)).
    { intros [= <- <-]. split; [discriminate|].
      exists []. simpl. rewrite app_nil_r. repeat split; auto. lia. }
    destruct (fetch_page W config auth endpoint pageToken s)
      as [[[pageModels next] | e |] s1] eqn:Hpage.
    + apply fetch_page_requests in Hpage as (reqs & -> & Hlen & Hget).
      destruct (truthy_opt next).
      * intros Hrec.
        apply IH in Hrec as (Hr & reqs' & -> & Hlen' & Hget'); [|lia].
        split; [exact Hr|].
        exists (reqs ++ reqs'). rewrite map_app, app_assoc, length_app.
        repeat split; [lia | now apply Forall_app].
      * intros [= <- <-]. split; [discriminate|].
        exists reqs. repeat split; [lia | exact Hget].
    + apply fetch_page_requests in Hpage as (reqs & -> & Hlen & Hget).
      intros [= <- <-]. split; [discriminate|].
      exists reqs. repeat split; [lia | exact Hget].
    + apply fetch_page_log in Hpage as [Hfuel _]. now elim Hfuel.
Qed.

Lemma attempt_requests (auth : AuthMode) (endpoint : jsstring) (s s' : log)
      (r : outcome (list jsstring)) :
  attempt W config auth endpoint s = (r, s') ->
  r <> OutOfFuel
  /\ exists reqs,
       s' = s ++ List.map EvFetch reqs /\ List.length reqs <= 20
       /\ Forall (fun q => method q = js "GET" /\ body q = None) reqs.
Proof.
  intros H. apply attempt_inv in H as (r0 & Hp & ->).
  apply (@paginate_requests auth endpoint 20 [] None 0 s s' r0 eq_refl) in Hp
    as (Hfuel & Hreqs).
  split; [|exact Hreqs].
  destruct r0; [discriminate | discriminate | now elim Hfuel].
Qed.

Lemma discover_requests (eps : list jsstring) :
  forall (lastError : option exn) (s s' : log) (r : outcome (list jsstring)),
    discover W config eps lastError s = (r, s') ->
    r <> OutOfFuel
    /\ exists reqs,
         s' = s ++ List.map EvFetch reqs
         /\ List.length reqs <= 40 * List.length eps
         /\ Forall (fun q => method q = js "GET" /\ body q = None) reqs.
Proof.
  induction eps as [|endpoint eps IH]; intros lastError s s' r.
  { cbn [discover]. unfold_monad. intros [= <- <-]. split; [discriminate|].
    exists []. simpl. rewrite app_nil_r. auto. }
  cbn [discover]. unfold_monad.
  destruct (attempt W config QueryKey endpoint s) as [r1 s1] eqn:H1.
  apply attempt_requests in H1 as (Hf1 & q1 & -> & Hl1 & Hg1).
  destruct r1 as [ms1 | e1 |]; [| |now elim Hf1].
  { intros [= <- <-]. split; [discriminate|].
    exists q1. split; [reflexivity|].
    split; [cbn [List.length]; lia | exact Hg1]. }
  destruct (attempt W config HeaderKey endpoint (s ++ List.map EvFetch q1))
    as [r2 s2] eqn:H2.
  apply attempt_requests in H2 as (Hf2 & q2 & -> & Hl2 & Hg2).
  destruct r2 as [ms2 | e2 |]; [| |now elim Hf2].
  { intros [= <- <-]. split; [discriminate|].
    exists (q1 ++ q2).
    split; [now rewrite map_app, app_assoc|].
    split; [rewrite length_app; cbn [List.length]; lia | now apply Forall_app]. }
  intros Hrec. apply IH in Hrec as (Hr & q3 & -> & Hl3 & Hg3).
  split; [exact Hr|].
  exists (q1 ++ q2 ++ q3).
  split; [now rewrite !map_app, !app_assoc|].
  split; [rewrite !length_app; cbn [List.length]; lia|].
  apply Forall_app; split; [exact Hg1|].
  apply Forall_app; split; assumption.
Qed.

(** X4: model discovery only ever issues [GET] requests without a
    body, never calls the SDK and never logs to the console; it ends
    (with a list or an error) after at most 80 requests, 40 for each
    candidate endpoint, and on the OpenAI path after exactly one. *)
Theorem listModels_requests (s s' : log) (r : outcome (list jsstring))
        (Hrun : listModels W config s = (r, s')) :
  r <> OutOfFuel
  /\ exists reqs,
       s' = s ++ List.map EvFetch reqs
       /\ Forall (fun q => method q = js "GET" /\ body q = None) reqs
       /\ List.length reqs <= 40 * List.length (endpoints config)
       /\ List.length reqs <= 80
       /\ (provider config = OpenAI -> has_key config = true ->
           List.length reqs = 1).
Proof.
  unfold listModels in Hrun.
  destruct (has_key config).
  2: { cbn [negb] in Hrun. unfold_monad. injection Hrun as <- <-.
       split; [discriminate|]. exists [].
       split; [cbn [List.map]; now rewrite app_nil_r|].
       split; [constructor|].
       split; [cbn [List.length]; lia|].
       split; [cbn [List.length]; lia|].
       intros _ H. discriminate. }
  cbn [negb] in Hrun.
  assert (List.length (endpoints config) <= 2) as Hlen.
  { destruct (endpoints_cases config)
      as [[_ ->] | (base & _ & _ & [[_ ->] | [_ ->]])]; simpl; lia. }
  destruct (provider config) eqn:Hp.
  - apply discover_requests in Hrun as (Hr & reqs & -> & Hl & Hg).
    split; [exact Hr|]. exists reqs.
    split; [reflexivity|]. split; [exact Hg|]. split; [exact Hl|].
    split; [lia | discriminate].
  - unfold throw_list_failure in Hrun. unfold_monad.
    match type of Hrun with
    | context [fetch_reply W s ?q] =>
      assert (exists reqs,
                 s ++ [EvFetch q] = s ++ List.map EvFetch reqs
                 /\ Forall (fun x => method x = js "GET" /\ body x = None) reqs
                 /\ List.length reqs <= 40 * List.length (endpoints config)
                 /\ List.length reqs <= 80
                 /\ (OpenAI = OpenAI -> true = true -> List.length reqs = 1))
        as Hlog;
        [exists [q];
         split; [reflexivity|];
         split; [repeat constructor|];
         split; [cbn [List.length];
                 destruct (endpoints_cases config)
                   as [[_ ->] | (base & _ & _ & [[_ ->] | [_ ->]])];
                 cbn [List.length]; lia|];
         split; [cbn [List.length]; lia | reflexivity]|];
      destruct (fetch_reply W s q) as [e | response]
    end.
    { injection Hrun as <- <-. split; [discriminate | exact Hlog]. }
    destruct (negb (ok response)).
    { destruct (stringify (failure_detail response));
        injection Hrun as <- <-; (split; [discriminate | exact Hlog]). }
    destruct (json_body response) as [e | data];
      [injection Hrun as <- <-; split; [discriminate | exact Hlog]|].
    destruct (openai_ids data) as [e | models];
      [injection Hrun as <- <-; split; [discriminate | exact Hlog]|].
    destruct (map_result as_string models);
      injection Hrun as <- <-; (split; [discriminate | exact Hlog]).
Qed.

End DiscoveryRequests.

Lemma listModels_requests_witness :
  fst (@listModels Sample.engine Sample.endless_world Sample.gemini [])
  = Ok [js "a"]
  /\ exists reqs,
       snd (@listModels Sample.engine Sample.endless_world Sample.gemini [])
       = [] ++ List.map EvFetch reqs
       /\ List.length reqs <= 80.
Proof.
  split; [reflexivity|].
  destruct (@listModels_requests Sample.engine Sample.endless_world Sample.gemini
              [] _ _ (surjective_pairing _))
    as (_ & reqs & Hlog & _ & _ & Hlen & _).
  exists reqs. split; [exact Hlog | exact Hlen].
Defined.

Section DiscoveryFailure.
Context {E : Engine} (W : World).
Variable config : AIConfig.

Lemma discover_throw (eps : list jsstring) :
  forall (lastError : option exn) (s s' : log) (e : exn),
    discover W config eps lastError s = (Throw e, s') ->
    all_fail W config (discovery_candidates eps) s s'
    /\ match eps with
       | [] => e = match lastError with
                   | Some e0 => e0
                   | None => Error (js "模型列表获取失败：未知错误")
                   end
       | _ :: _ =>
         exists cause s0,
           attempt W config HeaderKey (last eps []) s0 = (Throw cause, s')
           /\ e = wrap_gemini cause
       end.
Proof.
  induction eps as [|endpoint eps IH]; intros lastError s s' e.
  { cbn [discover]. unfold_monad. intros [= <- <-].
    split; [constructor | reflexivity]. }
  cbn [discover]. unfold_monad.
  destruct (attempt W config QueryKey endpoint s) as [[ms1 | e1 |] s1] eqn:H1;
    try discriminate.
  destruct (attempt W config HeaderKey endpoint s1) as [[ms2 | e2 |] s2] eqn:H2;
    try discriminate.
  intros Hrec. pose proof (IH _ _ _ _ Hrec) as [Hall Hlast].
  split.
  - cbn [discovery_candidates flat_map app].
    apply all_fail_cons with e1 s1; [exact H1|].
    apply all_fail_cons with e2 s2; [exact H2 | exact Hall].
  - destruct eps as [|next eps].
    + cbn [discover] in Hrec. unfold_monad. injection Hrec as <- <-.
      exists e2, s1. split; [exact H2 | reflexivity].
    + exact Hlast.
Qed.

Lemma discover_of_all_fail (eps : list jsstring) :
  forall (lastError : option exn) (s s' : log),
    all_fail W config (discovery_candidates eps) s s' ->
    exists e, discover W config eps lastError s = (Throw e, s').
Proof.
  induction eps as [|endpoint eps IH]; intros lastError s s' Hall.
  { inversion Hall; subst. cbn [discover]. unfold_monad. eauto. }
  cbn [discovery_candidates flat_map app] in Hall.
  inversion Hall as [|ep1 a1 cs1 s0 e1 s1 s2 H1 Hrest]; subst.
  inversion Hrest as [|ep2 a2 cs2 s0 e2 s3 s4 H2 Hrest']; subst.
  cbn [discover]. unfold_monad. rewrite H1, H2. now apply IH.
Qed.

(** X5: Gemini discovery fails exactly when every candidate fails, one
    after the other; the error it then raises is the one of the last
    attempt (the header attempt on the last endpoint) behind the
    Gemini prefix, never the unknown-error fallback of line 227. *)
Theorem gemini_discovery_failure (s : log)
        (Hkey : has_key config = true)
        (Hprovider : provider config = Gemini) :
  (forall e s',
      listModels W config s = (Throw e, s') ->
      all_fail W config (discovery_candidates (endpoints config)) s s'
      /\ exists cause s0,
           attempt W config HeaderKey (last (endpoints config) []) s0
           = (Throw cause, s')
           /\ e = Error (gemini_list_failed ++ formatNetworkError cause))
  /\ (forall s',
         all_fail W config (discovery_candidates (endpoints config)) s s' ->
         exists e, listModels W config s = (Throw e, s')).
Proof.
  split.
  - intros e s' Hrun. rewrite listModels_gemini in Hrun by assumption.
    apply discover_throw in Hrun as [Hall Hlast]. split; [exact Hall|].
    destruct (endpoints config) as [|ep eps] eqn:Heps; [|exact Hlast].
    destruct (endpoints_cases config)
      as [[_ H] | (base & _ & _ & [[_ H] | [_ H]])]; congruence.
  - intros s' Hall. rewrite listModels_gemini by assumption.
    now apply discover_of_all_fail.
Qed.

End DiscoveryFailure.

Lemma gemini_discovery_failure_witness :
  fst (@listModels Sample.engine Sample.unauthorized_world Sample.gemini [])
  = Throw (Error (js "Gemini 模型列表获取失败: 模型列表获取失败: bad key"))
  /\ List.length
       (snd (@listModels Sample.engine Sample.unauthorized_world Sample.gemini []))
     = 2
  /\ @all_fail Sample.engine Sample.unauthorized_world Sample.gemini
       (discovery_candidates (endpoints Sample.gemini)) []
       (snd (@listModels Sample.engine Sample.unauthorized_world Sample.gemini [])).
Proof.
  split; [reflexivity|]. split; [reflexivity|].
  destruct (@gemini_discovery_failure Sample.engine Sample.unauthorized_world
              Sample.gemini [] eq_refl eq_refl) as [H _].
  apply (H (Error (js "Gemini 模型列表获取失败: 模型列表获取失败: bad key"))
           (snd (@listModels Sample.engine Sample.unauthorized_world
                   Sample.gemini []))).
  reflexivity.
Defined.

(* ================================================================= *)
(** ** Query strings *)

Section SearchParams.
Context {E : Engine}.






End SearchParams.


(* ================================================================= *)
(** ** Chat completion *)

Section Chat.
Context {E : Engine} (W : World).
Variable config : AIConfig.

Lemma or_else_truthy (a : option json) (d : json) :
  truthy d = true -> truthy (or_else a d) = true.
Proof.
  unfold or_else. destruct a as [v|]; [|auto].
  destruct (truthy v) eqn:Hv; auto.
Qed.

Lemma str_or_nonempty (v : option jsstring) (d : jsstring) :
  d <> [] -> str_or v d <> [].
Proof. destruct v as [[|c t]|]; cbn [str_or]; auto. discriminate. Qed.

Lemma throw_openai_failure_throws (A : Type) (response : Response)
      (fallback : jsstring) (s : log) :
  exists e, @throw_openai_failure E A response fallback s = (Throw e, s).
Proof.
  unfold throw_openai_failure. unfold_monad.
  destruct (get (Some (error_body response)) (js "error")) as [e | inner];
    [eauto|].
  destruct (stringify _); eauto.
Qed.

Lemma callOpenAIChat_truthy (messages : list Message)
      (systemInstruction : option jsstring) (s s' : log) (v : json) :
  callOpenAIChat W config messages systemInstruction s = (Ok v, s') ->
  truthy v = true.
Proof.
  unfold callOpenAIChat. unfold_monad.
  destruct (fetch_reply W s _) as [e | response]; [discriminate|].
  destruct (negb (ok response)).
  { match goal with
    | |- context [throw_openai_failure response ?f ?t] =>
      destruct (throw_openai_failure_throws json response f t) as [e ->]
    end. discriminate. }
  destruct (json_body response) as [e | data]; [discriminate|].
  destruct (get (Some data) (js "choices")) as [e | choices]; [discriminate|].
  intros [= <- _]. now apply or_else_truthy.
Qed.

(** X7: a chat reply is never empty: whatever [generateChatResponse]
    returns is truthy (the fallback text replaces an empty or missing
    completion), and on the Gemini path it is a non-empty string. *)
Theorem chat_reply_never_empty (prompt : jsstring) (history : list ChatTurn)
        (s s' : log) (v : json)
        (Hrun : generateChatResponse W config prompt history s = (Ok v, s')) :
  truthy v = true
  /\ (provider config = Gemini -> exists reply, v = JStr reply /\ reply <> []).
Proof.
  unfold generateChatResponse in Hrun.
  destruct (negb (has_key config)); [discriminate|].
  destruct (provider config).
  - unfold_monad.
    match type of Hrun with
    | context [generateContent_reply W s ?a ?p] =>
      destruct (generateContent_reply W s a p) as [e | response]
    end; [discriminate|].
    injection Hrun as <- _.
    assert (str_or (text response) (js "AI 未返回内容") <> []) as Hne
        by (apply str_or_nonempty; discriminate).
    split.
    + cbn [truthy]. now apply negb_true_iff, str_eqb_neq.
    + intros _. eauto.
  - split; [|discriminate]. now apply callOpenAIChat_truthy in Hrun.
Qed.

(** The message of the error thrown for a non-success response, lines
    36-39 and 69-72, when the body is not JSON: the status text, or the
    fallback with the status code when the status text is empty. *)
Lemma throw_openai_failure_unparsed (A : Type) (response : Response)
      (fallback : jsstring) (s : log) (cause : exn) :
  json_body response = inl cause ->
  @throw_openai_failure E A response fallback s
  = (Throw (Error (match statusText response with
                   | [] => fallback
                   | text => text
                   end)), s).
Proof.
  intros Hbody. unfold throw_openai_failure, error_body. rewrite Hbody.
  unfold_monad.
  change (get (Some (JObj [(js "error",
                            JObj [(js "message", JStr (statusText response))])]))
              (js "error"))
    with (@inr exn _ (Some (JObj [(js "message", JStr (statusText response))]))).
  change (get_opt (Some (JObj [(js "message", JStr (statusText response))]))
                  (js "message"))
    with (Some (JStr (statusText response))).
  cbn [or_else truthy].
  destruct (statusText response) as [|c t]; reflexivity.
Qed.

Lemma throw_openai_failure_null (A : Type) (response : Response)
      (fallback : jsstring) (s : log) :
  json_body response = inr JNull ->
  @throw_openai_failure E A response fallback s = (Throw (raise ReadOfNullish), s).
Proof.
  intros Hbody. unfold throw_openai_failure, error_body. rewrite Hbody.
  reflexivity.
Qed.

(** X8: when the OpenAI chat endpoint refuses a request, one request
    was sent and [generateChatResponse] throws: with a body that is
    not JSON, an Error carrying the status text, or
    ['OpenAI Request Failed: <status>'] when the status text is empty;
    with the JSON body [null], the engine's TypeError for reading a
    property of [null], not a request-failed error. *)
Theorem chat_failure_message (prompt : jsstring) (history : list ChatTurn)
        (s : log) (req : Request) (response : Response)
        (Hprovider : provider config = OpenAI)
        (Hkey : has_key config = true)
        (Hsent : snd (generateChatResponse W config prompt history s)
                 = s ++ [EvFetch req])
        (Hreply : fetch_reply W s req = inr response)
        (Hok : ok response = false) :
  (forall cause,
      json_body response = inl cause ->
      generateChatResponse W config prompt history s
      = (Throw (Error (match statusText response with
                       | [] => js "OpenAI Request Failed: " ++ decimal (status response)
                       | text => text
                       end)), s ++ [EvFetch req]))
  /\ (json_body response = inr JNull ->
      generateChatResponse W config prompt history s
      = (Throw (raise ReadOfNullish), s ++ [EvFetch req])).
Proof.
  unfold generateChatResponse in *. rewrite Hkey, Hprovider in *. cbn [negb] in *.
  unfold callOpenAIChat in *. unfold_monad.
  match type of Hsent with
  | context [fetch_reply W s ?q] =>
    destruct (fetch_reply W s q) as [e | response0] eqn:Hr;
      [cbn [snd] in Hsent; apply app_inv_head in Hsent; injection Hsent as Hq;
       rewrite <- Hq in Hreply;
       pose proof (eq_trans (eq_sym Hr) Hreply) as Habs; discriminate Habs|];
      assert (q = req) as Hq
  end.
  { destruct (negb (ok response0)).
    - match type of Hsent with
      | context [throw_openai_failure response0 ?f ?t] =>
        destruct (throw_openai_failure_throws json response0 f t) as [e He];
          rewrite He in Hsent
      end.
      cbn [snd] in Hsent. apply app_inv_head in Hsent. now injection Hsent.
    - destruct (json_body response0) as [e | data];
        [|destruct (get (Some data) (js "choices"))];
        cbn [snd] in Hsent; apply app_inv_head in Hsent; now injection Hsent. }
  rewrite <- Hq in Hreply.
  pose proof (eq_trans (eq_sym Hr) Hreply) as Hsame. injection Hsame as ->.
  rewrite <- Hq. rewrite Hok. cbn [negb]. split.
  - intros cause Hbody. now apply throw_openai_failure_unparsed with cause.
  - intros Hbody. now apply throw_openai_failure_null.
Qed.

End Chat.

Lemma chat_reply_never_empty_witness :
  fst (@generateChatResponse Sample.engine Sample.empty_entry_world Sample.openai
         (js "hi") [] [])
  = Ok (JStr (js "AI returned empty response"))
  /\ @truthy Sample.engine (JStr (js "AI returned empty response")) = true.
Proof.
  split; [reflexivity|].
  apply (@chat_reply_never_empty Sample.engine Sample.empty_entry_world
           Sample.openai (js "hi") [] [] _ _ (surjective_pairing _)).
Defined.

Lemma chat_failure_message_witness :
  fst (@generateChatResponse Sample.engine Sample.bad_gateway_world Sample.openai
         (js "hi") [] [])
  = Throw (Error (js "OpenAI Request Failed: 502")).
Proof.
  let l := eval vm_compute in
             (snd (@generateChatResponse Sample.engine Sample.bad_gateway_world
                     Sample.openai (js "hi") [] [])) in
  match l with
  | [EvFetch ?r] =>
    destruct (@chat_failure_message Sample.engine Sample.bad_gateway_world
                Sample.openai (js "hi") [] [] r
                {| status := 502; statusText := [];
                   json_body := inl {| exn_name := js "SyntaxError";
                                       exn_message := js "Unexpected token <" |} |}
                eq_refl eq_refl eq_refl eq_refl eq_refl) as [H _]
  end.
  rewrite (H _ eq_refl). reflexivity.
Defined.

(* ================================================================= *)
(** ** The Gemini SDK paths *)

Section GeminiSdk.
Context {E : Engine} (W : World).
Variable config : AIConfig.

(** X9: when the SDK rejects with an error, the Gemini paths of
    [generateChatResponse] and [generateFormattedContent] make the one
    call, log the error to the console and throw a plain Error with
    its message (or their own fallback text when it has none), whereas
    [generateThemeCSS], which has no handler, makes the one call and
    lets the SDK's error through unchanged and unlogged. *)
Theorem gemini_sdk_rejection (prompt content : jsstring)
        (history : list ChatTurn) (s : log) (e : exn)
        (Hprovider : provider config = Gemini)
        (Hkey : has_key config = true)
        (Hreject : forall ai params, generateContent_reply W s ai params = inl e) :
  (exists ai params,
      generateChatResponse W config prompt history s
      = (Throw (Error (message_or e (js "AI 请求失败"))),
         s ++ [EvGenerateContent ai params; EvConsoleError (js "AI Chat Error:") e]))
  /\ (exists ai params,
         generateFormattedContent W config content s
         = (Throw (Error (message_or e (js "排版请求失败"))),
            s ++ [EvGenerateContent ai params;
                  EvConsoleError (js "AI Formatting Error:") e]))
  /\ (exists ai params,
         generateThemeCSS W config prompt s
         = (Throw e, s ++ [EvGenerateContent ai params])).
Proof.
  unfold generateChatResponse, generateFormattedContent, generateThemeCSS.
  rewrite Hkey, Hprovider. cbn [negb]. unfold_monad.
  rewrite !Hreject. repeat split; eexists; eexists;
    rewrite <- ?app_assoc; reflexivity.
Qed.



End GeminiSdk.

Lemma gemini_sdk_rejection_witness :
  fst (@generateThemeCSS Sample.engine Sample.header_only_world Sample.gemini
         (js "dark") [])
  = Throw Sample.offline
  /\ fst (@generateChatResponse Sample.engine Sample.header_only_world Sample.gemini
            (js "dark") [] [])
     = Throw (Error (js "offline"))
  /\ exists ai params,
       @generateFormattedContent Sample.engine Sample.header_only_world
         Sample.gemini (js "text") []
       = (Throw (Error (message_or Sample.offline (js "排版请求失败"))),
          [] ++ [EvGenerateContent ai params;
                 EvConsoleError (js "AI Formatting Error:") Sample.offline]).
Proof.
  split; [reflexivity|]. split; [reflexivity|].
  destruct (@gemini_sdk_rejection Sample.engine Sample.header_only_world
              Sample.gemini (js "dark") (js "text") [] [] Sample.offline
              eq_refl eq_refl (fun _ _ => eq_refl)) as (_ & H & _).
  exact H.
Defined.


(* ================================================================= *)
(** ** OpenAI model discovery *)

Section OpenAIDiscovery.
Context {E : Engine} (W : World).
Variable config : AIConfig.




End OpenAIDiscovery.

